(** * AI-Master: the live interview session controller

    A shallow embedding of [components/LiveSession.tsx] (the realtime session
    controller of the interview simulator) and of the audio codec it imports
    from [services/audioUtils].

    Conventions of the embedding.
    - A JavaScript string is the list of its UTF-16 code units.
    - A JavaScript [number] holding a time or a PCM sample is an exact
      rational ([Q]); timestamps returned by [Date.now()] are integers ([Z]).
    - React state cells ([useState]) and mutable refs ([useRef]) are fields
      of one record, [State]; a state setter applies its update at once.
    - Calls that leave the component (sending on the session, starting or
      stopping an audio source, opening or closing the transport) are
      appended to the [trace] field, in program order.
    - Callbacks run to completion, one after the other, as scheduled by the
      single-threaded event loop.  The one [await] inside [onmessage] (the
      decoding of an audio chunk) is taken to resolve before the next
      callback runs; the two halves it separates are also given as steps of
      their own ([clampSchedule], [startSource]). *)

From Stdlib Require Import String Ascii DecimalString.
From Stdlib Require Strings.Byte.
From Stdlib Require Import ZArith NArith QArith Qminmax Qround Qabs.
From Stdlib Require Import Lia Lqa Bool Sorted List.
Import ListNotations.

Set Implicit Arguments.

(* ================================================================== *)
(** ** JavaScript strings *)

Definition JsString := list N.

(** An ASCII literal as a JavaScript string. *)
Definition js (s : string) : JsString :=
  List.map N_of_ascii (list_ascii_of_string s).

(** [Boolean(s)] for a string: every string but the empty one is truthy. *)
Definition truthy (s : JsString) : bool :=
  match s with
  | [] => false
  | _ :: _ => true
  end.

(** Truthiness of an optional string field ([undefined] is falsy). *)
Definition truthy_opt (o : option JsString) : bool :=
  match o with
  | Some s => truthy s
  | None => false
  end.

(** The code units [String.prototype.trim] strips: ECMAScript WhiteSpace
    and LineTerminator. *)
Definition isWhiteSpace (c : N) : bool :=
  (N.eqb c 0x09 || N.eqb c 0x0A || N.eqb c 0x0B || N.eqb c 0x0C
   || N.eqb c 0x0D || N.eqb c 0x20 || N.eqb c 0xA0 || N.eqb c 0x1680
   || (N.leb 0x2000 c && N.leb c 0x200A)
   || N.eqb c 0x2028 || N.eqb c 0x2029 || N.eqb c 0x202F
   || N.eqb c 0x205F || N.eqb c 0x3000 || N.eqb c 0xFEFF)%bool.

Fixpoint trimStart (s : JsString) : JsString :=
  match s with
  | [] => []
  | c :: rest => if isWhiteSpace c then trimStart rest else s
  end.

Definition trimEnd (s : JsString) : JsString :=
  rev (trimStart (rev s)).

Definition trim (s : JsString) : JsString :=
  trimEnd (trimStart s).

(** [xs.join(sep)] *)
Fixpoint join (sep : JsString) (xs : list JsString) : JsString :=
  match xs with
  | [] => []
  | [x] => x
  | x :: rest => x ++ sep ++ join sep rest
  end.

(** [xs.slice(-n)]: the last [n] elements, all of them when there are
    fewer. *)
Definition slice_last {A : Type} (n : nat) (xs : list A) : list A :=
  skipn (length xs - n) xs.

Definition newline : JsString := [0x0A%N].

(* ================================================================== *)
(** ** Data model ([types.ts]) *)

Inductive Role : Type :=
| user
| model
| coach_hint
| coach_feedback
| coach_reference.

Definition Role_eqb (a b : Role) : bool :=
  match a, b with
  | user, user | model, model | coach_hint, coach_hint
  | coach_feedback, coach_feedback | coach_reference, coach_reference => true
  | _, _ => false
  end.

Record Metadata : Type := mkMetadata {
  score : option JsString;
  refined_answer : option JsString
}.

Record ChatMessage : Type := mkChatMessage {
  role : Role;
  text : JsString;
  timestamp : Z;
  metadata : option Metadata
}.

(** The [last_answer_feedback] object.  The arguments of a tool call arrive
    from the wire and are cast unchecked (line 185); the tool declaration
    marks none of the three members as required, so each may be absent. *)
Record Feedback : Type := mkFeedback {
  fb_score : option JsString;
  advice : option JsString;
  refined_response : option JsString
}.

Record InterviewerMindset : Type := mkMindset {
  mood : JsString;
  internal_thought : JsString;
  suggested_answer_tips : option JsString;
  reference_answer_for_question : option JsString;
  last_answer_feedback : option Feedback
}.

Record InterviewConfig : Type := mkConfig {
  templateId : JsString;
  context : JsString;
  avatarUrl : option JsString;
  voiceName : JsString;
  systemInstruction : JsString
}.

Inductive SessionStatus : Type := listening | thinking | speaking.

Definition SessionStatus_eqb (a b : SessionStatus) : bool :=
  match a, b with
  | listening, listening | thinking, thinking | speaking, speaking => true
  | _, _ => false
  end.

Inductive ConnectionStatus : Type :=
| initializing
| connecting
| connected
| reconnecting
| conn_error.

(* ================================================================== *)
(** ** Messages of the streaming endpoint *)

Record Blob : Type := mkBlob {
  data : option JsString;
  mimeType : option JsString
}.

Record Part : Type := mkPart {
  part_text : option JsString;
  inlineData : option Blob
}.

Record Content : Type := mkContent {
  content_role : option JsString;
  parts : option (list Part)
}.

Record Transcription : Type := mkTranscription {
  transcription_text : JsString
}.

Record LiveServerContent : Type := mkServerContent {
  modelTurn : option Content;
  turnComplete : bool;
  interrupted : bool;
  inputTranscription : option Transcription;
  outputTranscription : option Transcription
}.

Record FunctionCall : Type := mkFunctionCall {
  id : option JsString;
  name : option JsString;
  args : InterviewerMindset
}.

Record LiveServerToolCall : Type := mkToolCall {
  functionCalls : option (list FunctionCall)
}.

Record LiveServerMessage : Type := mkMessage {
  toolCall : option LiveServerToolCall;
  serverContent : option LiveServerContent
}.

(** What the component sends back. *)
Record FunctionResponse : Type := mkFunctionResponse {
  response_id : option JsString;
  response_name : option JsString;
  response_result : JsString
}.

Inductive RealtimeInput : Type :=
| media (b : Blob)
| content (c : Content).

(* ================================================================== *)
(** ** Audio objects and the transport *)

(** A Web Audio [AudioBuffer]: [frames] sample frames at [sampleRate] Hz,
    one list of samples per channel.  Its [duration] is the number of frames
    over the rate. *)
Record AudioBuffer : Type := mkAudioBuffer {
  frames : N;
  sampleRate : positive;
  channelData : list (list Q)
}.

Definition duration (b : AudioBuffer) : Q :=
  Qmake (Z.of_N (frames b)) (sampleRate b).

(** The output [AudioContext], created once with its sample rate. *)
Record AudioContext : Type := mkAudioContext {
  ctx_sampleRate : positive
}.

(** An [AudioBufferSourceNode]: object identity and the buffer it plays. *)
Record AudioBufferSourceNode : Type := mkSource {
  node : nat;
  buffer : AudioBuffer
}.

(** A session handle returned by [ai.live.connect]. *)
Definition Session := nat.

(** The calls that leave the component. *)
Inductive Effect : Type :=
| sendToolResponse (session : Session)
    (functionResponses : list FunctionResponse)
| sendRealtimeInput (session : Session) (input : RealtimeInput)
| live_connect (session : Session) (instruction : JsString)
| session_close (session : Session)
| source_start (source : AudioBufferSourceNode) (when : Q)
| source_stop (source : AudioBufferSourceNode).

(* ================================================================== *)
(** ** The component's state

    The [useState] cells and [useRef] refs of [LiveSession], under their
    source names, followed by three fields of the embedding: the [trace] of
    outward calls, the number of clock readings taken so far ([instant]) and
    the number of objects created so far ([allocated]). *)

Record State : Type := mkState {
  connectionStatus : ConnectionStatus;
  sessionStatus : SessionStatus;
  errorDetails : option JsString;
  isMicOn : bool;
  isMicOnRef : bool;
  chatHistory : list ChatMessage;
  chatHistoryRef : list ChatMessage;
  audioVolume : Q;
  mindset : InterviewerMindset;
  steeringInput : JsString;
  outputAudioContextRef : option AudioContext;
  nextStartTimeRef : Q;
  sourcesRef : list AudioBufferSourceNode;
  activeSessionRef : option Session;
  currentInputTranscription : JsString;
  currentOutputTranscription : JsString;
  trace : list Effect;
  instant : nat;
  allocated : nat
}.

Definition set_connectionStatus (v : ConnectionStatus) (s : State) : State :=
  mkState v (sessionStatus s) (errorDetails s) (isMicOn s) (isMicOnRef s)
    (chatHistory s) (chatHistoryRef s) (audioVolume s) (mindset s)
    (steeringInput s) (outputAudioContextRef s) (nextStartTimeRef s)
    (sourcesRef s) (activeSessionRef s) (currentInputTranscription s)
    (currentOutputTranscription s) (trace s) (instant s) (allocated s).

Definition set_sessionStatus (v : SessionStatus) (s : State) : State :=
  mkState (connectionStatus s) v (errorDetails s) (isMicOn s)
    (isMicOnRef s) (chatHistory s) (chatHistoryRef s) (audioVolume s)
    (mindset s) (steeringInput s) (outputAudioContextRef s)
    (nextStartTimeRef s) (sourcesRef s) (activeSessionRef s)
    (currentInputTranscription s) (currentOutputTranscription s) (trace s)
    (instant s) (allocated s).

Definition set_errorDetails (v : option JsString) (s : State) : State :=
  mkState (connectionStatus s) (sessionStatus s) v (isMicOn s)
    (isMicOnRef s) (chatHistory s) (chatHistoryRef s) (audioVolume s)
    (mindset s) (steeringInput s) (outputAudioContextRef s)
    (nextStartTimeRef s) (sourcesRef s) (activeSessionRef s)
    (currentInputTranscription s) (currentOutputTranscription s) (trace s)
    (instant s) (allocated s).

Definition set_isMicOn (v : bool) (s : State) : State :=
  mkState (connectionStatus s) (sessionStatus s) (errorDetails s) v
    (isMicOnRef s) (chatHistory s) (chatHistoryRef s) (audioVolume s)
    (mindset s) (steeringInput s) (outputAudioContextRef s)
    (nextStartTimeRef s) (sourcesRef s) (activeSessionRef s)
    (currentInputTranscription s) (currentOutputTranscription s) (trace s)
    (instant s) (allocated s).

Definition set_isMicOnRef (v : bool) (s : State) : State :=
  mkState (connectionStatus s) (sessionStatus s) (errorDetails s)
    (isMicOn s) v (chatHistory s) (chatHistoryRef s) (audioVolume s)
    (mindset s) (steeringInput s) (outputAudioContextRef s)
    (nextStartTimeRef s) (sourcesRef s) (activeSessionRef s)
    (currentInputTranscription s) (currentOutputTranscription s) (trace s)
    (instant s) (allocated s).

Definition set_chatHistory (v : list ChatMessage) (s : State) : State :=
  mkState (connectionStatus s) (sessionStatus s) (errorDetails s)
    (isMicOn s) (isMicOnRef s) v (chatHistoryRef s) (audioVolume s)
    (mindset s) (steeringInput s) (outputAudioContextRef s)
    (nextStartTimeRef s) (sourcesRef s) (activeSessionRef s)
    (currentInputTranscription s) (currentOutputTranscription s) (trace s)
    (instant s) (allocated s).

Definition set_chatHistoryRef (v : list ChatMessage) (s : State) : State :=
  mkState (connectionStatus s) (sessionStatus s) (errorDetails s)
    (isMicOn s) (isMicOnRef s) (chatHistory s) v (audioVolume s)
    (mindset s) (steeringInput s) (outputAudioContextRef s)
    (nextStartTimeRef s) (sourcesRef s) (activeSessionRef s)
    (currentInputTranscription s) (currentOutputTranscription s) (trace s)
    (instant s) (allocated s).

Definition set_audioVolume (v : Q) (s : State) : State :=
  mkState (connectionStatus s) (sessionStatus s) (errorDetails s)
    (isMicOn s) (isMicOnRef s) (chatHistory s) (chatHistoryRef s) v
    (mindset s) (steeringInput s) (outputAudioContextRef s)
    (nextStartTimeRef s) (sourcesRef s) (activeSessionRef s)
    (currentInputTranscription s) (currentOutputTranscription s) (trace s)
    (instant s) (allocated s).

Definition set_mindset (v : InterviewerMindset) (s : State) : State :=
  mkState (connectionStatus s) (sessionStatus s) (errorDetails s)
    (isMicOn s) (isMicOnRef s) (chatHistory s) (chatHistoryRef s)
    (audioVolume s) v (steeringInput s) (outputAudioContextRef s)
    (nextStartTimeRef s) (sourcesRef s) (activeSessionRef s)
    (currentInputTranscription s) (currentOutputTranscription s) (trace s)
    (instant s) (allocated s).

Definition set_steeringInput (v : JsString) (s : State) : State :=
  mkState (connectionStatus s) (sessionStatus s) (errorDetails s)
    (isMicOn s) (isMicOnRef s) (chatHistory s) (chatHistoryRef s)
    (audioVolume s) (mindset s) v (outputAudioContextRef s)
    (nextStartTimeRef s) (sourcesRef s) (activeSessionRef s)
    (currentInputTranscription s) (currentOutputTranscription s) (trace s)
    (instant s) (allocated s).

Definition set_outputAudioContextRef (v : option AudioContext) (s : State)
    : State :=
  mkState (connectionStatus s) (sessionStatus s) (errorDetails s)
    (isMicOn s) (isMicOnRef s) (chatHistory s) (chatHistoryRef s)
    (audioVolume s) (mindset s) (steeringInput s) v (nextStartTimeRef s)
    (sourcesRef s) (activeSessionRef s) (currentInputTranscription s)
    (currentOutputTranscription s) (trace s) (instant s) (allocated s).

Definition set_nextStartTimeRef (v : Q) (s : State) : State :=
  mkState (connectionStatus s) (sessionStatus s) (errorDetails s)
    (isMicOn s) (isMicOnRef s) (chatHistory s) (chatHistoryRef s)
    (audioVolume s) (mindset s) (steeringInput s) (outputAudioContextRef s)
    v (sourcesRef s) (activeSessionRef s) (currentInputTranscription s)
    (currentOutputTranscription s) (trace s) (instant s) (allocated s).

Definition set_sourcesRef (v : list AudioBufferSourceNode) (s : State)
    : State :=
  mkState (connectionStatus s) (sessionStatus s) (errorDetails s)
    (isMicOn s) (isMicOnRef s) (chatHistory s) (chatHistoryRef s)
    (audioVolume s) (mindset s) (steeringInput s) (outputAudioContextRef s)
    (nextStartTimeRef s) v (activeSessionRef s)
    (currentInputTranscription s) (currentOutputTranscription s) (trace s)
    (instant s) (allocated s).

Definition set_activeSessionRef (v : option Session) (s : State) : State :=
  mkState (connectionStatus s) (sessionStatus s) (errorDetails s)
    (isMicOn s) (isMicOnRef s) (chatHistory s) (chatHistoryRef s)
    (audioVolume s) (mindset s) (steeringInput s) (outputAudioContextRef s)
    (nextStartTimeRef s) (sourcesRef s) v (currentInputTranscription s)
    (currentOutputTranscription s) (trace s) (instant s) (allocated s).

Definition set_currentInputTranscription (v : JsString) (s : State) : State :=
  mkState (connectionStatus s) (sessionStatus s) (errorDetails s)
    (isMicOn s) (isMicOnRef s) (chatHistory s) (chatHistoryRef s)
    (audioVolume s) (mindset s) (steeringInput s) (outputAudioContextRef s)
    (nextStartTimeRef s) (sourcesRef s) (activeSessionRef s) v
    (currentOutputTranscription s) (trace s) (instant s) (allocated s).

Definition set_currentOutputTranscription (v : JsString) (s : State) : State :=
  mkState (connectionStatus s) (sessionStatus s) (errorDetails s)
    (isMicOn s) (isMicOnRef s) (chatHistory s) (chatHistoryRef s)
    (audioVolume s) (mindset s) (steeringInput s) (outputAudioContextRef s)
    (nextStartTimeRef s) (sourcesRef s) (activeSessionRef s)
    (currentInputTranscription s) v (trace s) (instant s) (allocated s).

Definition set_trace (v : list Effect) (s : State) : State :=
  mkState (connectionStatus s) (sessionStatus s) (errorDetails s)
    (isMicOn s) (isMicOnRef s) (chatHistory s) (chatHistoryRef s)
    (audioVolume s) (mindset s) (steeringInput s) (outputAudioContextRef s)
    (nextStartTimeRef s) (sourcesRef s) (activeSessionRef s)
    (currentInputTranscription s) (currentOutputTranscription s) v
    (instant s) (allocated s).

Definition set_instant (v : nat) (s : State) : State :=
  mkState (connectionStatus s) (sessionStatus s) (errorDetails s)
    (isMicOn s) (isMicOnRef s) (chatHistory s) (chatHistoryRef s)
    (audioVolume s) (mindset s) (steeringInput s) (outputAudioContextRef s)
    (nextStartTimeRef s) (sourcesRef s) (activeSessionRef s)
    (currentInputTranscription s) (currentOutputTranscription s) (trace s)
    v (allocated s).

Definition set_allocated (v : nat) (s : State) : State :=
  mkState (connectionStatus s) (sessionStatus s) (errorDetails s)
    (isMicOn s) (isMicOnRef s) (chatHistory s) (chatHistoryRef s)
    (audioVolume s) (mindset s) (steeringInput s) (outputAudioContextRef s)
    (nextStartTimeRef s) (sourcesRef s) (activeSessionRef s)
    (currentInputTranscription s) (currentOutputTranscription s) (trace s)
    (instant s) v.

(* ================================================================== *)
(** ** The audio codec ([services/audioUtils])

    The component imports [createPcmBlob], [decode] and [decodeAudioData]
    from [services/audioUtils]; that file is not among the sources at hand.
    Every definition of this module is modelled from section 4.1 of the
    specification: samples are quantized to signed 16-bit integers at full
    scale [2^15], laid out low byte first and framed as base64 text (RFC
    4648 alphabet, [=] padding). *)

Module AudioUtils.

(** Modelled from the spec: the low eight bits of a number, as a byte
    (helper of the absent [createPcmBlob]). *)
Definition byte_of_N (n : N) : Byte.byte :=
  match Byte.of_N (n mod 256)%N with
  | Some b => b
  | None => Byte.x00
  end.

(** *** 16-bit PCM *)

(** Modelled from the spec: out-of-range input of the absent
    [createPcmBlob] is clamped to [-1, 1], not rejected. *)
Definition clamp (x : Q) : Q := Qmax (-1) (Qmin 1 x).

(** Modelled from the spec: the conversion to an integer in the absent
    [createPcmBlob]; storing a number in a 16-bit integer array drops its
    fractional part. *)
Definition truncate (x : Q) : Z :=
  if Qle_bool 0 x then Qfloor x else Qceiling x.

(** Modelled from the spec: one sample of the absent [createPcmBlob] as a
    signed 16-bit integer; full scale is [2^15]. *)
Definition quantize (x : Q) : Z :=
  Z.max (-32768) (Z.min 32767 (truncate (clamp x * 32768)%Q)).

(** Modelled from the spec: a signed 16-bit integer of the absent
    [createPcmBlob] as two bytes, low byte first (two's complement). *)
Definition int16_le (v : Z) : list Byte.byte :=
  let u := Z.to_N (v mod 65536)%Z in
  [byte_of_N u; byte_of_N (u / 256)%N].

(** Modelled from the spec: the signed 16-bit integer the absent
    [decodeAudioData] reads from two bytes, low byte first. *)
Definition le_int16 (lo hi : Byte.byte) : Z :=
  let u := Z.of_N (Byte.to_N lo + 256 * Byte.to_N hi)%N in
  (if u <? 32768 then u else u - 65536)%Z.

(** Modelled from the spec: the wire bytes of a run of samples in the
    absent [createPcmBlob]. *)
Definition pcm16 (samples : list Q) : list Byte.byte :=
  flat_map (fun x => int16_le (quantize x)) samples.

(** Modelled from the spec: the 16-bit integers the absent
    [decodeAudioData] finds in a byte sequence; an odd last byte holds no
    sample. *)
Fixpoint int16s (bytes : list Byte.byte) : list Z :=
  match bytes with
  | lo :: hi :: rest => le_int16 lo hi :: int16s rest
  | _ => []
  end.

(** Modelled from the spec: a 16-bit integer as a normalized sample in the
    absent [decodeAudioData]. *)
Definition normalize (v : Z) : Q := Qmake v 32768.

(** *** Base64 framing *)

Local Open Scope N_scope.

(** Modelled from the spec: the padding character [=] of the base64
    framing of the absent [createPcmBlob] and [decode]. *)
Definition pad : N := 61.

(** Modelled from the spec: the character of a six-bit value in the base64
    framing of the absent [createPcmBlob]. *)
Definition base64_char (n : N) : N :=
  if n <? 26 then 65 + n
  else if n <? 52 then 97 + (n - 26)
  else if n <? 62 then 48 + (n - 52)
  else if n =? 62 then 43
  else 47.

(** Modelled from the spec: the six-bit value of a character in the base64
    unwrap of the absent [decode]; [None] for a character outside the
    alphabet. *)
Definition base64_index (c : N) : option N :=
  if (65 <=? c) && (c <=? 90) then Some (c - 65)
  else if (97 <=? c) && (c <=? 122) then Some (c - 97 + 26)
  else if (48 <=? c) && (c <=? 57) then Some (c - 48 + 52)
  else if c =? 43 then Some 62
  else if c =? 47 then Some 63
  else None.

(** Modelled from the spec: the base64 framing of the absent
    [createPcmBlob], three bytes to four characters. *)
Fixpoint base64 (bytes : list Byte.byte) : JsString :=
  match bytes with
  | [] => []
  | [x] =>
      let a := Byte.to_N x in
      [base64_char (a / 4); base64_char (a mod 4 * 16); pad; pad]
  | [x; y] =>
      let a := Byte.to_N x in
      let b := Byte.to_N y in
      [base64_char (a / 4); base64_char (a mod 4 * 16 + b / 16);
       base64_char (b mod 16 * 4); pad]
  | x :: y :: z :: rest =>
      let a := Byte.to_N x in
      let b := Byte.to_N y in
      let c := Byte.to_N z in
      base64_char (a / 4) :: base64_char (a mod 4 * 16 + b / 16)
        :: base64_char (b mod 16 * 4 + c / 64) :: base64_char (c mod 64)
        :: base64 rest
  end.

(** Modelled from the spec: the bytes of one group of four characters in
    the unwrap of the absent [decode]; padding shortens the group. *)
Definition unbase64_group (c0 c1 c2 c3 : N) : option (list Byte.byte) :=
  match base64_index c0, base64_index c1 with
  | Some s0, Some s1 =>
      let x := byte_of_N (s0 * 4 + s1 / 16) in
      if (c2 =? pad) && (c3 =? pad) then Some [x]
      else
        match base64_index c2 with
        | Some s2 =>
            let y := byte_of_N (s1 mod 16 * 16 + s2 / 4) in
            if c3 =? pad then Some [x; y]
            else
              match base64_index c3 with
              | Some s3 => Some [x; y; byte_of_N (s2 mod 4 * 64 + s3)]
              | None => None
              end
        | None => None
        end
  | _, _ => None
  end.

(** Modelled from the spec: the base64 unwrap of the absent [decode]; a
    length that is no multiple of four, a character outside the alphabet
    and padding before the last group are malformed. *)
Fixpoint unbase64 (s : JsString) : option (list Byte.byte) :=
  match s with
  | [] => Some []
  | c0 :: c1 :: c2 :: c3 :: rest =>
      match unbase64_group c0 c1 c2 c3, unbase64 rest with
      | Some group, Some bytes =>
          match rest with
          | [] => Some group
          | _ :: _ => if c3 =? pad then None else Some (group ++ bytes)
          end
      | _, _ => None
      end
  | _ => None
  end.

Local Close Scope N_scope.

(** *** The three functions of the module *)

(** Modelled from the spec: [createPcmBlob] of [services/audioUtils], which
    is not among the sources at hand.  Section 4.1 calls it [encode]:
    samples in [-1,1] become 16-bit signed little-endian integers, packaged
    with a mime tag that declares the sample rate; out-of-range input is
    clamped, nothing is thrown. *)
Definition encode (samples : list Q) (rate : positive) : Blob :=
  mkBlob (Some (base64 (pcm16 samples)))
    (Some (js "audio/pcm;rate="
             ++ js (NilEmpty.string_of_uint (Pos.to_uint rate)))).

(** Modelled from the spec: [decode] of [services/audioUtils], which is not
    among the sources at hand.  Section 4.1: the inverse framing, a
    base64-style unwrap to raw bytes, failing with a [DecodeError] ([None])
    on a malformed input length. *)
Definition decode (block : JsString) : option (list Byte.byte) :=
  unbase64 block.

(** Modelled from the spec: channel [c] of [n] frames of interleaved
    samples in the absent [decodeAudioData]. *)
Definition channel (samples : list Q) (channelCount n c : nat) : list Q :=
  map (fun i => nth (i * channelCount + c)%nat samples 0) (seq 0 n).

(** Modelled from the spec: [decodeAudioData] of [services/audioUtils], which
    is not among the sources at hand.  Section 4.1: the raw 16-bit samples
    reinterpreted as normalized numbers at the given rate and channel count;
    the buffer lasts [byteLength / (2 * channelCount) / sampleRate] seconds,
    exact to sample resolution. *)
Definition decodeAudioData (bytes : list Byte.byte) (rate : positive)
    (channelCount : positive) : AudioBuffer :=
  let samples := map normalize (int16s bytes) in
  let n := (length bytes / (2 * Pos.to_nat channelCount))%nat in
  mkAudioBuffer (N.of_nat n) rate
    (map (channel samples (Pos.to_nat channelCount) n)
       (seq 0 (Pos.to_nat channelCount))).

End AudioUtils.

(* ================================================================== *)
(** ** What the component takes from its host

    The browser clocks, the environment and the functions imported from
    [services/audioUtils].  The controller is verified for any host.

    [Date_now n] and [currentTime n] are the values [Date.now()] and the
    output context's [currentTime] return at the [n]-th clock reading of the
    session.  A codec function returns [None] where the JavaScript function
    throws. *)

Record Host : Type := mkHost {
  API_KEY : bool;
  Date_now : nat -> Z;
  currentTime : nat -> Q;
  createPcmBlob : list Q -> Blob;
  decode : JsString -> option (list Byte.byte);
  decodeAudioData :
    list Byte.byte -> AudioContext -> positive -> positive -> option AudioBuffer
}.

(** How a callback ends: by returning, or by an exception that leaves it. *)
Inductive Outcome : Type := Returned | Threw.

(** The value of a property access that may raise a [TypeError]. *)
Inductive Completion (A : Type) : Type :=
| Normal (a : A)
| Throw.
Arguments Throw {A}.

(** Optional chaining, [o?.f]. *)
Definition chain {A B : Type} (o : option A) (f : A -> option B) : option B :=
  match o with
  | Some a => f a
  | None => None
  end.

(** Truthiness of an optional boolean member, [o?.f]. *)
Definition flag {A : Type} (o : option A) (f : A -> bool) : bool :=
  match o with
  | Some a => f a
  | None => false
  end.

Definition JsString_eqb (a b : JsString) : bool :=
  if list_eq_dec N.eq_dec a b then true else false.

(** [o === lit] for an optional string member. *)
Definition strict_equal (o : option JsString) (lit : JsString) : bool :=
  match o with
  | Some s => JsString_eqb s lit
  | None => false
  end.

(** A JavaScript [Set] of source nodes, in insertion order; nodes are
    compared by identity. *)
Definition same_node (a b : AudioBufferSourceNode) : bool :=
  Nat.eqb (node a) (node b).

Definition Set_add (x : AudioBufferSourceNode)
    (xs : list AudioBufferSourceNode) : list AudioBufferSourceNode :=
  if existsb (same_node x) xs then xs else xs ++ [x].

Definition Set_delete (x : AudioBufferSourceNode)
    (xs : list AudioBufferSourceNode) : list AudioBufferSourceNode :=
  filter (fun y => negb (same_node x y)) xs.

(** String literals of the component (UTF-16 code units). *)
Definition lit_preparing : JsString :=
  [0x6B63; 0x5728; 0x51C6; 0x5907; 0x9762; 0x8BD5; 0x73AF; 0x5883;
   0x002E; 0x002E; 0x002E]%N.
Definition lit_starting : JsString :=
  [0x6B63; 0x5728; 0x542F; 0x52A8; 0x9762; 0x8BD5; 0x6D41; 0x7A0B;
   0x002E; 0x002E; 0x002E]%N.
Definition lit_restored : JsString :=
  [0x8FDE; 0x63A5; 0x6062; 0x590D; 0xFF0C; 0x7EE7; 0x7EED; 0x9762;
   0x8BD5; 0x002E; 0x002E; 0x002E]%N.
Definition lit_no_api_key : JsString :=
  (js "API Key " ++ [0x672A; 0x914D; 0x7F6E])%N.
Definition lit_connection_lost : JsString :=
  [0x8FDE; 0x63A5; 0x4E2D; 0x65AD; 0xFF0C; 0x8BF7; 0x68C0; 0x67E5;
   0x7F51; 0x7EDC; 0x3002]%N.
Definition lit_directive : JsString :=
  [0x0028; 0x6307; 0x4EE4; 0x0029; 0x0020]%N.

(** The state of a freshly mounted component (lines 18-56). *)
Definition initialState : State :=
  {| connectionStatus := initializing;
     sessionStatus := listening;
     errorDetails := None;
     isMicOn := true;
     isMicOnRef := true;
     chatHistory := [];
     chatHistoryRef := [];
     audioVolume := 0;
     mindset := mkMindset (js "Neutral") lit_preparing None None None;
     steeringInput := [];
     outputAudioContextRef := None;
     nextStartTimeRef := 0;
     sourcesRef := [];
     activeSessionRef := None;
     currentInputTranscription := [];
     currentOutputTranscription := [];
     trace := [];
     instant := 0;
     allocated := 0 |}.

(* ================================================================== *)
(** ** The controller ([LiveSession.tsx]) *)

Section LiveSession.

Variable host : Host.
Variable config : InterviewConfig.

Definition emit (e : Effect) (s : State) : State :=
  set_trace (trace s ++ [e]) s.

(** [Date.now()] *)
Definition now (s : State) : Z * State :=
  (Date_now host (instant s), set_instant (S (instant s)) s).

(** [ctx.currentTime] *)
Definition outputClock (s : State) : Q * State :=
  (currentTime host (instant s), set_instant (S (instant s)) s).

(** *** Step 3 of [connectToGemini]: the system instruction (lines 115-121) *)

Definition isDialogueTurn (m : ChatMessage) : bool :=
  (Role_eqb (role m) user || Role_eqb (role m) model)%bool.

Definition transcriptLine (msg : ChatMessage) : JsString :=
  (if Role_eqb (role msg) user then js "Candidate" else js "Interviewer")
    ++ js ": " ++ text msg.

(** The turns replayed on a reconnect:
    [filter(m => m.role === 'user' || m.role === 'model').slice(-20)]. *)
Definition replayedTurns (history : list ChatMessage) : list ChatMessage :=
  slice_last 20 (filter isDialogueTurn history).

Definition replayTranscript (history : list ChatMessage) : JsString :=
  join newline (map transcriptLine (replayedTurns history)).

Definition restoredHeader : JsString :=
  newline ++ newline
    ++ js "[SYSTEM: CONNECTION RESTORED] Resume the interview. Transcript:"
    ++ newline.

Definition finalSystemInstruction (isRetry : bool)
    (history : list ChatMessage) : JsString :=
  if (isRetry && Nat.ltb 0 (length history))%bool
  then systemInstruction config ++ restoredHeader ++ replayTranscript history
  else systemInstruction config.

(** *** [connectToGemini] (lines 67-335)

    [mediaFailure] is the message of the exception [getUserMedia] raises
    when the devices cannot be acquired (step 2), [None] when it succeeds.
    The session object that [ai.live.connect] returns is named by the next
    unused object number. *)
Definition connectToGemini (isRetry : bool) (mediaFailure : option JsString)
    (s : State) : State :=
  if negb (API_KEY host) then
    set_errorDetails (Some lit_no_api_key) (set_connectionStatus conn_error s)
  else
    let s := match activeSessionRef s with
             | Some session => emit (session_close session) s
             | None => s
             end in
    let s := set_connectionStatus
               (if isRetry then reconnecting else connecting) s in
    let s := set_errorDetails None s in
    (* 1. audio contexts *)
    let s := match outputAudioContextRef s with
             | None => set_outputAudioContextRef (Some (mkAudioContext 24000)) s
             | Some _ => s
             end in
    (* 2. media stream *)
    match mediaFailure with
    | Some message =>
        set_errorDetails (Some message) (set_connectionStatus conn_error s)
    | None =>
        (* 3. instruction *)
        let instruction := finalSystemInstruction isRetry (chatHistoryRef s) in
        (* 4. connect *)
        let session := allocated s in
        let s := set_allocated (S (allocated s)) s in
        let s := emit (live_connect session instruction) s in
        set_activeSessionRef (Some session) s
    end.

(** *** [onopen] (lines 137-151), up to the installation of the taps *)
Definition onopen (isRetry : bool) (s : State) : State :=
  let s := set_connectionStatus connected s in
  let s := set_sessionStatus listening s in
  let prev := mindset s in
  set_mindset
    (mkMindset (mood prev)
       (if isRetry then lit_restored else lit_starting)
       (suggested_answer_tips prev) (reference_answer_for_question prev)
       (last_answer_feedback prev)) s.

(** *** [onerror] (lines 320-324) *)
Definition onerror (s : State) : State :=
  set_errorDetails (Some lit_connection_lost)
    (set_connectionStatus conn_error s).

(** *** The audio-frame tap, [scriptProcessor.onaudioprocess] (lines 157-172)

    [sessionStatus_seen] is the value of [sessionStatus] the closure
    captured when [connectToGemini] was created.  The tap fires with full
    frames of 4096 samples; the mean of an empty frame, not a number in
    JavaScript, is 0 here. *)
Definition sumAbs (inputData : list Q) : Q :=
  fold_left (fun acc val => acc + Qabs val) inputData 0.

Definition onaudioprocess (sessionPromise : Session)
    (sessionStatus_seen : SessionStatus) (inputData : list Q)
    (s : State) : State :=
  if negb (isMicOnRef s) then s
  else
    let volume := sumAbs inputData / inject_Z (Z.of_nat (length inputData)) in
    let s := set_audioVolume (Qmin (volume * 500) 100) s in
    let s :=
      if (negb (Qle_bool volume (1 # 100))
          && negb (SessionStatus_eqb sessionStatus_seen speaking))%bool
      then set_sessionStatus listening s
      else s in
    let pcmBlob := createPcmBlob host inputData in
    emit (sendRealtimeInput sessionPromise (media pcmBlob)) s.

(** *** [toggleMic] (lines 405-411) *)
Definition toggleMic (s : State) : State :=
  let prev := isMicOn s in
  let newState := negb prev in
  let s := set_isMicOnRef newState s in
  set_isMicOn newState s.

(** *** [handleSteering] (lines 413-430)

    The send is recorded in the trace; an exception it might raise is
    caught and logged by the source and is not modelled. *)
Definition steeringMessage (input : JsString) : Content :=
  mkContent (Some (js "user"))
    (Some [mkPart (Some (js "[System Instruction: " ++ input ++ js "]")) None]).

Definition handleSteering (s : State) : State :=
  match truthy (trim (steeringInput s)), activeSessionRef s with
  | true, Some session =>
      let input := steeringInput s in
      let (t, s) := now s in
      let s := set_chatHistory
                 (chatHistory s
                    ++ [mkChatMessage user (lit_directive ++ input) t None])
                 s in
      let s := emit (sendRealtimeInput session
                       (content (steeringMessage input))) s in
      set_steeringInput [] s
  | _, _ => s
  end.

(** *** [onmessage], part 1: tool calls (lines 181-239) *)

(** The updater passed to [setChatHistory] (lines 189-225): the coaching
    turns of the new mindset, pushed onto a copy of the history. *)
Definition injectCoaching (newMindset : InterviewerMindset) (s : State)
    : State :=
  let newHistory := chatHistory s in
  (* feedback on the previous answer *)
  let '(newHistory, s) :=
    match chain (last_answer_feedback newMindset) advice with
    | Some adviceText =>
        if truthy adviceText then
          let (t, s) := now s in
          (newHistory
             ++ [mkChatMessage coach_feedback adviceText t
                   (Some (mkMetadata
                            (chain (last_answer_feedback newMindset) fb_score)
                            (chain (last_answer_feedback newMindset)
                               refined_response)))],
           s)
        else (newHistory, s)
    | None => (newHistory, s)
    end in
  (* reference answer for the current question *)
  let '(newHistory, s) :=
    match reference_answer_for_question newMindset with
    | Some reference =>
        if truthy reference then
          let (t, s) := now s in
          (newHistory
             ++ [mkChatMessage coach_reference reference (t + 50) None],
           s)
        else (newHistory, s)
    | None => (newHistory, s)
    end in
  (* hints *)
  let '(newHistory, s) :=
    match suggested_answer_tips newMindset with
    | Some tips =>
        if truthy tips then
          let (t, s) := now s in
          (newHistory ++ [mkChatMessage coach_hint tips (t + 100) None], s)
        else (newHistory, s)
    | None => (newHistory, s)
    end in
  set_chatHistory newHistory (set_chatHistoryRef newHistory s).

Definition update_mindset : JsString := js "update_mindset".

Definition acknowledgment (call : FunctionCall) : list FunctionResponse :=
  [mkFunctionResponse (id call) (name call) (js "ok")].

(** The body of the loop over [message.toolCall.functionCalls]. *)
Definition handleFunctionCall (sessionPromise : Session) (call : FunctionCall)
    (s : State) : State :=
  if strict_equal (name call) update_mindset then
    let newMindset := args call in
    let s := set_mindset newMindset s in
    let s := injectCoaching newMindset s in
    emit (sendToolResponse sessionPromise (acknowledgment call)) s
  else s.

Definition handleToolCall (sessionPromise : Session)
    (calls : list FunctionCall) (s : State) : State :=
  fold_left (fun st call => handleFunctionCall sessionPromise call st) calls s.

(** *** [onmessage], part 2: transcription and turn boundary (lines 242-271) *)

Definition accumulate (sc : option LiveServerContent) (s : State) : State :=
  match chain sc outputTranscription with
  | Some fragment =>
      let s := set_currentOutputTranscription
                 (currentOutputTranscription s ++ transcription_text fragment)
                 s in
      set_sessionStatus speaking s
  | None =>
      match chain sc inputTranscription with
      | Some fragment =>
          let s := set_currentInputTranscription
                     (currentInputTranscription s
                        ++ transcription_text fragment) s in
          set_sessionStatus listening s
      | None => s
      end
  end.

Definition completeTurn (s : State) : State :=
  let s := set_sessionStatus listening s in
  let userText := currentInputTranscription s in
  let modelText := currentOutputTranscription s in
  if (truthy (trim userText) || truthy (trim modelText))%bool then
    let newHistory := chatHistory s in
    let '(newHistory, s) :=
      if truthy (trim userText) then
        let (t, s) := now s in
        (newHistory ++ [mkChatMessage user userText t None], s)
      else (newHistory, s) in
    let '(newHistory, s) :=
      if truthy (trim modelText) then
        let (t, s) := now s in
        (newHistory ++ [mkChatMessage model modelText t None], s)
      else (newHistory, s) in
    let s := set_chatHistory newHistory (set_chatHistoryRef newHistory s) in
    let s := set_currentInputTranscription [] s in
    set_currentOutputTranscription [] s
  else s.

(** *** [onmessage], part 3: audio output (lines 274-307) *)

(** [message.serverContent?.modelTurn?.parts[0]?.inlineData?.data]: the
    access [parts[0]] is not guarded, and raises when a model turn has no
    [parts]. *)
Definition base64AudioOf (message : LiveServerMessage)
    : Completion (option JsString) :=
  match chain (serverContent message) modelTurn with
  | None => Normal None
  | Some turn =>
      match parts turn with
      | None => Throw
      | Some ps => Normal (chain (chain (hd_error ps) inlineData) data)
      end
  end.

(** Lines 276-278, up to the [await]: the scheduling clock is brought up
    to the output clock. *)
Definition clampSchedule (s : State) : State :=
  let s := set_sessionStatus speaking s in
  let (clock, s) := outputClock s in
  set_nextStartTimeRef (Qmax (nextStartTimeRef s) clock) s.

(** Lines 287-306, after the [await]: a source for the decoded buffer is
    started at the scheduled time, which then advances by the duration of
    the buffer. *)
Definition startSource (audioBuffer : AudioBuffer) (s : State) : State :=
  let source := mkSource (allocated s) audioBuffer in
  let s := set_allocated (S (allocated s)) s in
  let s := emit (source_start source (nextStartTimeRef s)) s in
  let s := set_nextStartTimeRef
             (nextStartTimeRef s + duration audioBuffer) s in
  set_sourcesRef (Set_add source (sourcesRef s)) s.

(** The audio part, with the [await] of line 280 taken to resolve before
    any other callback runs.  An exception of the decoder leaves the
    callback after the clamp. *)
Definition playAudio (base64Audio : JsString) (ctx : AudioContext)
    (s : State) : Outcome * State :=
  let s := clampSchedule s in
  match chain (decode host base64Audio)
          (fun bytes => decodeAudioData host bytes ctx 24000 1) with
  | None => (Threw, s)
  | Some audioBuffer => (Returned, startSource audioBuffer s)
  end.

(** The two halves of the audio part as steps of their own, for a decoder
    that suspends: between the clamp of one chunk and the start of its
    source, the halves of other chunks may run. *)
Inductive AudioStep : Type :=
| step_clamp
| step_start (audioBuffer : AudioBuffer).

Definition audioStep (step : AudioStep) (s : State) : State :=
  match step with
  | step_clamp => clampSchedule s
  | step_start audioBuffer => startSource audioBuffer s
  end.

Definition audioSteps (steps : list AudioStep) (s : State) : State :=
  fold_left (fun st step => audioStep step st) steps s.

(** The listener each source gets for its [ended] event (lines 297-302). *)
Definition onended (source : AudioBufferSourceNode) (s : State) : State :=
  let s := set_sourcesRef (Set_delete source (sourcesRef s)) s in
  match sourcesRef s with
  | [] => set_sessionStatus listening s
  | _ :: _ => s
  end.

(** *** [onmessage], part 4: interruption (lines 309-315) *)
Definition interrupt (s : State) : State :=
  let s := fold_left (fun st source => emit (source_stop source) st)
             (sourcesRef s) s in
  let s := set_sourcesRef [] s in
  let s := set_nextStartTimeRef 0 s in
  let s := set_currentOutputTranscription [] s in
  set_sessionStatus listening s.

(** The guard of the audio part (lines 274-275) and the part itself. *)
Definition audioOutput (message : LiveServerMessage) (s : State)
    : Outcome * State :=
  match base64AudioOf message with
  | Throw => (Threw, s)
  | Normal base64Audio =>
      match base64Audio, outputAudioContextRef s with
      | Some payload, Some ctx =>
          if truthy payload then playAudio payload ctx s else (Returned, s)
      | _, _ => (Returned, s)
      end
  end.

(** The state in which [onmessage] reaches its audio part: the fragment of
    the message accumulated and, on a turn boundary, the turn completed. *)
Definition beforeAudio (message : LiveServerMessage) (s : State) : State :=
  let sc := serverContent message in
  let s := accumulate sc s in
  if flag sc turnComplete then completeTurn s else s.

(** *** [onmessage] (lines 179-316) *)
Definition onmessage (sessionPromise : Session) (message : LiveServerMessage)
    (s : State) : Outcome * State :=
  match toolCall message with
  | Some call =>
      match functionCalls call with
      | Some calls => (Returned, handleToolCall sessionPromise calls s)
      | None => (Threw, s)
      end
  | None =>
      let sc := serverContent message in
      let s := beforeAudio message s in
      match audioOutput message s with
      | (Threw, s) => (Threw, s)
      | (Returned, s) =>
          (Returned, if flag sc interrupted then interrupt s else s)
      end
  end.

(** The state after a run of inbound messages, each handled to completion
    (an exception ends the callback it is raised in, not the session). *)
Definition deliver (sessionPromise : Session)
    (messages : list LiveServerMessage) (s : State) : State :=
  fold_left (fun st message => snd (onmessage sessionPromise message st))
    messages s.

End LiveSession.

(* ================================================================== *)
(** ** The inbound events of the specification, as messages *)

Definition audioChunk (payload : JsString) : LiveServerMessage :=
  mkMessage None
    (Some (mkServerContent
             (Some (mkContent (Some (js "model"))
                      (Some [mkPart None
                               (Some (mkBlob (Some payload)
                                        (Some (js "audio/pcm;rate=24000"))))])))
             false false None None)).

Definition interruptedEvent : LiveServerMessage :=
  mkMessage None (Some (mkServerContent None false true None None)).

Definition turnCompleteEvent : LiveServerMessage :=
  mkMessage None (Some (mkServerContent None true false None None)).

Definition inputTranscriptEvent (fragment : JsString) : LiveServerMessage :=
  mkMessage None
    (Some (mkServerContent None false false
             (Some (mkTranscription fragment)) None)).

Definition outputTranscriptEvent (fragment : JsString) : LiveServerMessage :=
  mkMessage None
    (Some (mkServerContent None false false None
             (Some (mkTranscription fragment)))).

Definition toolCallEvent (callName : JsString) (callArgs : InterviewerMindset)
    (callId : JsString) : LiveServerMessage :=
  mkMessage
    (Some (mkToolCall (Some [mkFunctionCall (Some callId) (Some callName)
                               callArgs])))
    None.

(** Whether a message reaches the interruption branch of [onmessage]. *)
Definition interrupts (message : LiveServerMessage) : bool :=
  match toolCall message with
  | Some _ => false
  | None => flag (serverContent message) interrupted
  end.

(* ================================================================== *)
(** ** The coaching turns of a mindset, in the words of the specification *)

(** A turn for a field that is present.  The handler tests the field as
    JavaScript does: a field counts as present when it is supplied and not
    the empty string. *)
Definition present (field : option JsString) : bool := truthy_opt field.

Definition turnIfPresent (field : option JsString)
    (turn : JsString -> ChatMessage) : list ChatMessage :=
  match field with
  | Some value => if truthy value then [turn value] else []
  | None => []
  end.

(** Feedback, then reference, then hint; [t1], [t2] and [t3] are the capture
    times of the three turns, offset by 0, 50 and 100 milliseconds. *)
Definition coachingTurns (m : InterviewerMindset) (t1 t2 t3 : Z)
    : list ChatMessage :=
  turnIfPresent (chain (last_answer_feedback m) advice)
    (fun value =>
       mkChatMessage coach_feedback value t1
         (Some (mkMetadata (chain (last_answer_feedback m) fb_score)
                  (chain (last_answer_feedback m) refined_response))))
  ++ turnIfPresent (reference_answer_for_question m)
       (fun value => mkChatMessage coach_reference value (t2 + 50) None)
  ++ turnIfPresent (suggested_answer_tips m)
       (fun value => mkChatMessage coach_hint value (t3 + 100) None).

(** The number of clock readings a field costs. *)
Definition readings (field : option JsString) : nat :=
  if present field then 1 else 0.

(* ================================================================== *)
(** ** The playback schedule *)

(** A scheduled segment: its start on the output clock and its duration. *)
Record Segment : Type := mkSegment {
  start : Q;
  seg_duration : Q
}.

(** The segments a trace schedules, in the order of the [source.start]
    calls. *)
Fixpoint schedule (tr : list Effect) : list Segment :=
  match tr with
  | [] => []
  | source_start source when :: rest =>
      mkSegment when (duration (buffer source)) :: schedule rest
  | _ :: rest => schedule rest
  end.

(** No segment starts before the one scheduled before it has ended. *)
Fixpoint back_to_back (segments : list Segment) : Prop :=
  match segments with
  | [] => True
  | a :: rest =>
      match rest with
      | [] => True
      | b :: _ => start a + seg_duration a <= start b
      end /\ back_to_back rest
  end.

(** The scheduled end times seen along a run of messages: the value of
    [nextStartTimeRef] after each of them. *)
Fixpoint scheduledEnds (host : Host) (sessionPromise : Session)
    (messages : list LiveServerMessage) (s : State) : list Q :=
  match messages with
  | [] => []
  | message :: rest =>
      let s' := snd (onmessage host sessionPromise message s) in
      nextStartTimeRef s' :: scheduledEnds host sessionPromise rest s'
  end.

Fixpoint nondecreasing (xs : list Q) : Prop :=
  match xs with
  | [] => True
  | x :: rest =>
      match rest with
      | [] => True
      | y :: _ => x <= y
      end /\ nondecreasing rest
  end.

(** Whether a call is one the handler answers. *)
Definition answered (call : FunctionCall) : bool :=
  strict_equal (name call) update_mindset.

(** [s'] continues the schedule of [s]: the trace has grown, the segments
    added are back to back, none starts before the scheduled end that [s]
    records, and all of them end by the one that [s'] records. *)
Definition continues (s s' : State) : Prop :=
  exists added : list Effect,
    trace s' = trace s ++ added
    /\ back_to_back (schedule added)
    /\ Forall (fun g => nextStartTimeRef s <= start g) (schedule added)
    /\ Forall (fun g => start g + seg_duration g <= nextStartTimeRef s')
         (schedule added)
    /\ nextStartTimeRef s <= nextStartTimeRef s'.

(* ================================================================== *)
(** ** A host to run the controller on *)

(** A host whose wall clock ticks one millisecond and whose audio clock
    ticks ten milliseconds per reading, with the codec of [AudioUtils]. *)
Definition referenceHost : Host :=
  {| API_KEY := true;
     Date_now := fun n => (1700000000000 + Z.of_nat n)%Z;
     currentTime := fun n => Qmake (Z.of_nat n) 100;
     createPcmBlob := fun inputData => AudioUtils.encode inputData 16000;
     decode := AudioUtils.decode;
     decodeAudioData := fun bytes _ rate channelCount =>
       Some (AudioUtils.decodeAudioData bytes rate channelCount) |}.

Definition referenceConfig : InterviewConfig :=
  {| templateId := js "campus";
     context := js "Java";
     avatarUrl := None;
     voiceName := js "Kore";
     systemInstruction := js "You are a professional interviewer." |}.

(** The handle of the first session a component opens. *)
Definition firstSession : Session := 0%nat.

(** A connected session: freshly mounted, then connected and opened. *)
Definition connectedState : State :=
  onopen false (connectToGemini referenceHost referenceConfig false None
                  initialState).

(** Four samples, their wire bytes, the payload of an [audioChunk] that
    carries them and the buffer they decode to. *)
Definition sampleSamples : list Q := [1 # 2; - (1 # 2); 1 # 4; 0].

Definition sampleBytes : list Byte.byte := AudioUtils.pcm16 sampleSamples.

Definition sampleChunk : JsString := AudioUtils.base64 sampleBytes.

Definition sampleBuffer : AudioBuffer :=
  AudioUtils.decodeAudioData sampleBytes 24000 1.

(** Two segments in flight. *)
Definition playingState : State :=
  deliver referenceHost firstSession
    [audioChunk sampleChunk; audioChunk sampleChunk] connectedState.

(** Both sides have spoken since the last turn boundary. *)
Definition talkingState : State :=
  deliver referenceHost firstSession
    [inputTranscriptEvent (js "I led a team of five.");
     outputTranscriptEvent (js "Tell me more.")]
    connectedState.

(** A mindset with every coaching field, and one with none. *)
Definition coachingMindset : InterviewerMindset :=
  mkMindset (js "Impressed") (js "solid answer")
    (Some (js "name the trade-offs"))
    (Some (js "I led the migration."))
    (Some (mkFeedback (Some (js "8/10")) (Some (js "give numbers"))
             (Some (js "I cut latency by 40%.")))).

Definition plainMindset : InterviewerMindset :=
  mkMindset (js "Neutral") (js "warming up") None None None.

(** A steering text typed into a connected session. *)
Definition steeringState : State :=
  set_steeringInput (js "Ask about Java.") connectedState.

(* ================================================================== *)
(** ** The states a session can be in *)

(** The states the component reaches from its mount by its callbacks and
    commands, in any order and with any arguments. *)
Inductive reachable (host : Host) (config : InterviewConfig) : State -> Prop :=
| reach_mount : reachable host config initialState
| reach_connect (isRetry : bool) (mediaFailure : option JsString) (s : State) :
    reachable host config s ->
    reachable host config (connectToGemini host config isRetry mediaFailure s)
| reach_open (isRetry : bool) (s : State) :
    reachable host config s -> reachable host config (onopen isRetry s)
| reach_error (s : State) :
    reachable host config s -> reachable host config (onerror s)
| reach_message (session : Session) (message : LiveServerMessage) (s : State) :
    reachable host config s ->
    reachable host config (snd (onmessage host session message s))
| reach_ended (source : AudioBufferSourceNode) (s : State) :
    reachable host config s -> reachable host config (onended source s)
| reach_frame (session : Session) (seen : SessionStatus) (inputData : list Q)
    (s : State) :
    reachable host config s ->
    reachable host config (onaudioprocess host session seen inputData s)
| reach_toggle (s : State) :
    reachable host config s -> reachable host config (toggleMic s)
| reach_typing (input : JsString) (s : State) :
    reachable host config s -> reachable host config (set_steeringInput input s)
| reach_steering (s : State) :
    reachable host config s -> reachable host config (handleSteering host s).

(* ================================================================== *)
(** ** A transcript of twenty-five turns *)

(** One round of an interview: the reference answer and the hint for the
    question, the question, the answer and the feedback on it. *)
Definition sampleRound (k : N) : list ChatMessage :=
  let t := (1700000000000 + 1000 * Z.of_N k)%Z in
  let digit := [(48 + k)%N] in
  [mkChatMessage coach_reference (js "reference " ++ digit) (t + 50) None;
   mkChatMessage coach_hint (js "hint " ++ digit) (t + 100) None;
   mkChatMessage model (js "question " ++ digit) (t + 200) None;
   mkChatMessage user (js "answer " ++ digit) (t + 300) None;
   mkChatMessage coach_feedback (js "feedback " ++ digit) (t + 400)
     (Some (mkMetadata (Some (js "8/10")) None))].

Definition history25 : list ChatMessage :=
  flat_map sampleRound [1; 2; 3; 4; 5]%N.

(** A connected session whose transcript is [history25]. *)
Definition retryState : State :=
  set_chatHistoryRef history25 (set_chatHistory history25 connectedState).

(** The replay block as the specification words it: the most recent twenty
    turns of the transcript, one line each. *)
Definition replayOfLastTwenty (history : list ChatMessage) : JsString :=
  join newline (map transcriptLine (slice_last 20 history)).

(* ================================================================== *)
(** ** One step of the component, and runs of steps *)

(** [transition s s']: one callback or command takes the component from
    [s] to [s']. *)
Inductive transition (host : Host) (config : InterviewConfig)
    : State -> State -> Prop :=
| do_connect (isRetry : bool) (mediaFailure : option JsString) (s : State) :
    transition host config s
      (connectToGemini host config isRetry mediaFailure s)
| do_open (isRetry : bool) (s : State) :
    transition host config s (onopen isRetry s)
| do_error (s : State) :
    transition host config s (onerror s)
| do_message (session : Session) (message : LiveServerMessage) (s : State) :
    transition host config s (snd (onmessage host session message s))
| do_ended (source : AudioBufferSourceNode) (s : State) :
    transition host config s (onended source s)
| do_frame (session : Session) (seen : SessionStatus) (inputData : list Q)
    (s : State) :
    transition host config s (onaudioprocess host session seen inputData s)
| do_toggle (s : State) :
    transition host config s (toggleMic s)
| do_typing (input : JsString) (s : State) :
    transition host config s (set_steeringInput input s)
| do_steering (s : State) :
    transition host config s (handleSteering host s).

Inductive evolves (host : Host) (config : InterviewConfig)
    : State -> State -> Prop :=
| evolves_here (s : State) : evolves host config s s
| evolves_then (s1 s2 s3 : State) :
    evolves host config s1 s2 -> transition host config s2 s3 ->
    evolves host config s1 s3.

(** A run of audio frames through the tap. *)
Definition captureFrames (host : Host) (sessionPromise : Session)
    (seen : SessionStatus) (inputFrames : list (list Q)) (s : State) : State :=
  fold_left
    (fun st inputData => onaudioprocess host sessionPromise seen inputData st)
    inputFrames s.

(** A run of [ended] events. *)
Definition endAll (sources : list AudioBufferSourceNode) (s : State) : State :=
  fold_left (fun st source => onended source st) sources s.

(** The times at which a trace starts its sources. *)
Fixpoint startTimes (tr : list Effect) : list Q :=
  match tr with
  | [] => []
  | source_start _ when :: rest => when :: startTimes rest
  | _ :: rest => startTimes rest
  end.

(** The sources a trace stops. *)
Fixpoint stopped (tr : list Effect) : list AudioBufferSourceNode :=
  match tr with
  | [] => []
  | source_stop source :: rest => source :: stopped rest
  | _ :: rest => stopped rest
  end.

(** A message that carries both a tool call and server content. *)
Definition toolCallWith (calls : list FunctionCall)
    (sc : option LiveServerContent) : LiveServerMessage :=
  mkMessage (Some (mkToolCall (Some calls))) sc.

(** One transcript continues another. *)
Definition extends (older newer : list ChatMessage) : Prop :=
  exists added, newer = older ++ added.

(** A turn that [handleSteering] appends. *)
Definition isDirective (m : ChatMessage) : Prop :=
  role m = user /\ exists input, text m = lit_directive ++ input.

(** The transcript is the recorded copy followed by directives only. *)
Definition lagsByDirectives (s : State) : Prop :=
  exists pending,
    chatHistory s = chatHistoryRef s ++ pending /\ Forall isDirective pending.

(** What the server content of a message can touch. *)
Definition conversationFields (s : State)
    : JsString * JsString * SessionStatus * Q * list AudioBufferSourceNode :=
  (currentInputTranscription s, currentOutputTranscription s,
   sessionStatus s, nextStartTimeRef s, sourcesRef s).

(** The identities of the sources a trace starts. *)
Fixpoint startedNodes (tr : list Effect) : list nat :=
  match tr with
  | [] => []
  | source_start source _ :: rest => node source :: startedNodes rest
  | _ :: rest => startedNodes rest
  end.

(** Every [stop] of a trace is on a source started earlier in the trace, or
    among [started]. *)
Fixpoint stopsFollowStarts (started : list nat) (tr : list Effect) : Prop :=
  match tr with
  | [] => True
  | source_start source _ :: rest =>
      stopsFollowStarts (node source :: started) rest
  | source_stop source :: rest =>
      In (node source) started /\ stopsFollowStarts started rest
  | _ :: rest => stopsFollowStarts started rest
  end.

(** An effect that neither starts nor stops a source. *)
Definition isQuiet (e : Effect) : bool :=
  match e with
  | source_start _ _ | source_stop _ => false
  | _ => true
  end.

(** What holds of the audio side of every reachable state. *)
Definition audioInvariant (s : State) : Prop :=
  0 <= nextStartTimeRef s
  /\ Forall (fun when => 0 <= when) (startTimes (trace s))
  /\ stopsFollowStarts [] (trace s)
  /\ Forall (fun source => In (node source) (startedNodes (trace s))
                           /\ (node source < allocated s)%nat)
       (sourcesRef s).

(* ================================================================== *)
(** ** Mood display ([LiveSession.tsx], lines 432-470) *)

Definition emoji_impressed : JsString := [0xD83E; 0xDD29]%N.
Definition emoji_skeptical : JsString := [0xD83E; 0xDD28]%N.
Definition emoji_strict : JsString := [0xD83D; 0xDE20]%N.
Definition emoji_encouraging : JsString := [0xD83E; 0xDD17]%N.
Definition emoji_disappointed : JsString := [0xD83D; 0xDE1E]%N.
Definition emoji_neutral : JsString := [0xD83D; 0xDE10]%N.

(** [getMoodEmoji] (lines 432-441) *)
Definition getMoodEmoji (mood : JsString) : JsString :=
  if JsString_eqb mood (js "Impressed") then emoji_impressed
  else if JsString_eqb mood (js "Skeptical") then emoji_skeptical
  else if JsString_eqb mood (js "Strict") then emoji_strict
  else if JsString_eqb mood (js "Encouraging") then emoji_encouraging
  else if JsString_eqb mood (js "Disappointed") then emoji_disappointed
  else emoji_neutral.

Record MoodStyles : Type := mkMoodStyles {
  style_filter : JsString;
  borderColor : JsString;
  style_transition : JsString
}.

(** [getMoodStyles] (lines 443-470) *)
Definition getMoodStyles (mood : JsString) : MoodStyles :=
  let filter := js "contrast(100%) saturate(100%) brightness(100%)" in
  let borderColor := js "rgba(255, 255, 255, 0.8)" in
  let '(filter, borderColor) :=
    if JsString_eqb mood (js "Strict") then
      (js "contrast(115%) saturate(80%) brightness(95%) sepia(10%)",
       js "#64748b")
    else if JsString_eqb mood (js "Encouraging") then
      (js "contrast(95%) saturate(110%) brightness(105%) sepia(5%)",
       js "#f59e0b")
    else if JsString_eqb mood (js "Skeptical") then
      (js "contrast(110%) saturate(90%) brightness(98%)", js "#a855f7")
    else if JsString_eqb mood (js "Impressed") then
      (js "contrast(105%) saturate(120%) brightness(108%)", js "#10b981")
    else if JsString_eqb mood (js "Disappointed") then
      (js "contrast(90%) saturate(60%) brightness(90%) grayscale(20%)",
       js "#ef4444")
    else (filter, borderColor) in
  mkMoodStyles filter borderColor
    (js "filter 0.5s ease, border-color 0.5s ease").

(** The moods the two functions have a case for. *)
Definition recognisedMoods : list JsString :=
  [js "Impressed"; js "Skeptical"; js "Strict"; js "Encouraging";
   js "Disappointed"].

(* ================================================================== *)
(** ** The application shell ([App.tsx]) *)

Inductive AppState : Type := SETUP | LIVE | SUMMARY.

(** The two [useState] cells of [App]. *)
Record App : Type := mkApp {
  appState : AppState;
  app_config : option InterviewConfig
}.

Definition initialApp : App := mkApp SETUP None.

(** [handleStartInterview] (lines 10-13) *)
Definition handleStartInterview (newConfig : InterviewConfig) (a : App) : App :=
  mkApp LIVE (Some newConfig).

(** [handleEndInterview] (lines 15-19) *)
Definition handleEndInterview (a : App) : App :=
  mkApp SETUP None.

(** What [App] renders (lines 21-31). *)
Inductive Screen : Type :=
| SetupScreen
| LiveSessionScreen (config : InterviewConfig).

Definition render (a : App) : list Screen :=
  (match appState a with
   | SETUP => [SetupScreen]
   | _ => []
   end)
  ++ (match appState a, app_config a with
      | LIVE, Some config => [LiveSessionScreen config]
      | _, _ => []
      end).

Inductive app_reachable : App -> Prop :=
| app_mount : app_reachable initialApp
| app_start (newConfig : InterviewConfig) (a : App) :
    app_reachable a -> app_reachable (handleStartInterview newConfig a)
| app_end (a : App) :
    app_reachable a -> app_reachable (handleEndInterview a).

(* ================================================================== *)
(** ** Persona and avatar generation ([services/geminiService.ts])

    The two functions await [ai.models.generateContent]; its outcome is an
    argument here: the response, or [Throw] when the call rejects. *)

Record Candidate : Type := mkCandidate {
  candidate_content : option Content
}.

Record GenerateContentResponse : Type := mkResponse {
  response_text : option JsString;
  candidates : option (list Candidate)
}.

Definition persona_default : JsString :=
  js "You are a professional interviewer. "
    ++ js "Always use the update_mindset tool. Speak first. Use Chinese.".

Definition persona_fallback_head : JsString :=
  [0x4F60; 0x662F; 0x4E00; 0x4F4D; 0x4E13; 0x4E1A; 0x7684; 0x9762; 0x8BD5;
   0x5B98; 0xFF0C; 0x6B63; 0x5728; 0x8FDB; 0x884C]%N.

Definition persona_fallback_tail : JsString :=
  [0x3002; 0x000A; 0x0020; 0x0020; 0x0020; 0x0020; 0x5FC5; 0x987B; 0x4E3B;
   0x52A8; 0x5F00; 0x59CB; 0x5BF9; 0x8BDD; 0xFF08; 0x4F8B; 0x5982; 0xFF1A;
   0x201C; 0x4F60; 0x597D; 0xFF0C; 0x6211; 0x662F; 0x4ECA; 0x5929; 0x7684;
   0x9762; 0x8BD5; 0x5B98; 0x002E; 0x002E; 0x002E; 0x201D; 0xFF09; 0x3002;
   0x000A; 0x0020; 0x0020; 0x0020; 0x0020; 0x6BCF; 0x6B21; 0x56DE; 0x7B54;
   0x524D; 0x5FC5; 0x987B; 0x4F7F; 0x7528; 0x0020; 0x0075; 0x0070; 0x0064;
   0x0061; 0x0074; 0x0065; 0x005F; 0x006D; 0x0069; 0x006E; 0x0064; 0x0073;
   0x0065; 0x0074; 0x0020; 0x5DE5; 0x5177; 0x3002; 0x000A; 0x0020; 0x0020;
   0x0020; 0x0020; 0x6240; 0x6709; 0x5185; 0x5FC3; 0x6D3B; 0x52A8; 0x3001;
   0x8BC4; 0x4EF7; 0x3001; 0x53C2; 0x8003; 0x56DE; 0x7B54; 0x90FD; 0x5FC5;
   0x987B; 0x4F7F; 0x7528; 0x4E2D; 0x6587; 0x3002; 0x000A; 0x0020; 0x0020;
   0x0020; 0x0020; 0x0072; 0x0065; 0x0066; 0x0065; 0x0072; 0x0065; 0x006E;
   0x0063; 0x0065; 0x005F; 0x0061; 0x006E; 0x0073; 0x0077; 0x0065; 0x0072;
   0x005F; 0x0066; 0x006F; 0x0072; 0x005F; 0x0071; 0x0075; 0x0065; 0x0073;
   0x0074; 0x0069; 0x006F; 0x006E; 0x0020; 0x5FC5; 0x987B; 0x662F; 0x7B2C;
   0x4E00; 0x4EBA; 0x79F0; 0x7684; 0x5177; 0x4F53; 0x56DE; 0x7B54; 0x8303;
   0x4F8B; 0x3002; 0x000A; 0x0020; 0x0020; 0x0020; 0x0020; 0x006C; 0x0061;
   0x0073; 0x0074; 0x005F; 0x0061; 0x006E; 0x0073; 0x0077; 0x0065; 0x0072;
   0x005F; 0x0066; 0x0065; 0x0065; 0x0064; 0x0062; 0x0061; 0x0063; 0x006B;
   0x0020; 0x5FC5; 0x987B; 0x9488; 0x5BF9; 0x7528; 0x6237; 0x7684; 0x4E0A;
   0x4E00; 0x8F6E; 0x56DE; 0x7B54; 0x7ED9; 0x51FA; 0x8BC4; 0x4EF7; 0x548C;
   0x4FEE; 0x6B63; 0x5EFA; 0x8BAE; 0x3002]%N.

(** [generateInterviewerPersona] (lines 44-76) *)
Definition generateInterviewerPersona (templateTitle userContext : JsString)
    (outcome : Completion GenerateContentResponse) : JsString :=
  match outcome with
  | Normal response =>
      match response_text response with
      | Some instruction =>
          if truthy instruction then instruction else persona_default
      | None => persona_default
      end
  | Throw => persona_fallback_head ++ templateTitle ++ persona_fallback_tail
  end.

(** A value inside a template literal. *)
Definition interpolate (value : option JsString) : JsString :=
  match value with
  | Some text => text
  | None => js "undefined"
  end.

Definition dataUrlPrefix : JsString := js "data:image/png;base64,".

(** [response.candidates?.[0]?.content?.parts || []] *)
Definition firstCandidateParts (response : GenerateContentResponse)
    : list Part :=
  match chain (chain (chain (candidates response) (@hd_error Candidate))
                 candidate_content) parts with
  | Some ps => ps
  | None => []
  end.

(** The loop of lines 91-95. *)
Fixpoint firstInlineImage (ps : list Part) : option JsString :=
  match ps with
  | [] => None
  | part :: rest =>
      match inlineData part with
      | Some blob => Some (dataUrlPrefix ++ interpolate (data blob))
      | None => firstInlineImage rest
      end
  end.

(** [generateAvatarImage] (lines 79-101) *)
Definition generateAvatarImage (description : JsString)
    (outcome : Completion GenerateContentResponse) : option JsString :=
  match outcome with
  | Normal response => firstInlineImage (firstCandidateParts response)
  | Throw => None
  end.

(* ================================================================== *)
(** ** Further states and messages *)

Definition candidateSpokeState : State :=
  deliver referenceHost firstSession
    [inputTranscriptEvent (js "I led a team of five.")] connectedState.

Definition blankState : State :=
  deliver referenceHost firstSession [inputTranscriptEvent (js " ")]
    connectedState.

Definition bothFragments : LiveServerContent :=
  mkServerContent None false false (Some (mkTranscription (js "I led")))
    (Some (mkTranscription (js "Tell me"))).

Definition partlessTurn : Content := mkContent (Some (js "model")) None.

Definition brokenInterruption : LiveServerContent :=
  mkServerContent (Some partlessTurn) false true None None.


Definition mutedState : State := toggleMic connectedState.

Definition imageResponse : GenerateContentResponse :=
  mkResponse None
    (Some [mkCandidate
             (Some (mkContent (Some (js "model"))
                      (Some [mkPart (Some (js "Here it is.")) None;
                             mkPart None
                               (Some (mkBlob (Some (js "iVBORw0KGgo="))
                                        (Some (js "image/png"))))])))]).

(* ================================================================== *)
(** * Properties *)

(** ** The definitions on small inputs *)

Example trim_strips_both_ends :
  trim ([0x3000; 0x20]%N ++ js "a b" ++ [0x0A; 0xA0]%N) = js "a b".
Proof. reflexivity. Qed.

Example trim_of_blank : truthy (trim (js "   ")) = false.
Proof. reflexivity. Qed.

Example join_three :
  join newline [js "a"; js "b"; js "c"] = [97; 10; 98; 10; 99]%N.
Proof. reflexivity. Qed.

Example slice_last_short : slice_last 20 [1; 2; 3]%nat = [1; 2; 3]%nat.
Proof. reflexivity. Qed.

Example slice_last_long : slice_last 2 [1; 2; 3]%nat = [2; 3]%nat.
Proof. reflexivity. Qed.

Example base64_Man :
  AudioUtils.base64 [Byte.x4d; Byte.x61; Byte.x6e] = js "TWFu".
Proof. reflexivity. Qed.

Example base64_padding :
  AudioUtils.base64 [Byte.x4d; Byte.x61] = js "TWE="
  /\ AudioUtils.decode (js "TWE=") = Some [Byte.x4d; Byte.x61]
  /\ AudioUtils.decode (js "TWE") = None.
Proof. repeat split; vm_compute; reflexivity. Qed.

Example quantize_samples :
  map AudioUtils.quantize [1 # 2; - (1 # 3); 1; 3; -1; -7 # 2]
  = [16384; -10922; 32767; 32767; -32768; -32768]%Z.
Proof. vm_compute. reflexivity. Qed.

Example sampleChunk_text : sampleChunk = js "AEAAwAAgAAA=".
Proof. vm_compute. reflexivity. Qed.

Example sampleBuffer_duration : duration sampleBuffer == 1 # 6000.
Proof. vm_compute. reflexivity. Qed.

Example replay_of_history25 :
  length (replayedTurns history25) = 10%nat
  /\ hd_error (map transcriptLine (replayedTurns history25))
     = Some (js "Interviewer: question 1").
Proof. split; vm_compute; reflexivity. Qed.

(** Splitting on the tests a definition makes, innermost first. *)
Ltac split_tests :=
  repeat match goal with
         | |- context [match ?x with _ => _ end] =>
             lazymatch x with
             | context [match _ with _ => _ end] => fail
             | _ => destruct x eqn:?
             end
         end.

Section Properties.

Variable host : Host.
Variable sessionPromise : Session.

(** ** Interruption *)

Lemma stop_all_trace (sources : list AudioBufferSourceNode) (s : State) :
  fold_left (fun st source => emit (source_stop source) st) sources s
  = set_trace (trace s ++ map source_stop sources) s.
Proof.
  revert s; induction sources as [|source sources IH]; intro s; simpl.
  - rewrite app_nil_r. destruct s; reflexivity.
  - rewrite IH. unfold emit, set_trace; simpl.
    now rewrite <- app_assoc.
Qed.

(** What [interrupt] leaves behind, field by field. *)
Lemma interrupt_effect (s : State) :
  trace (interrupt s) = trace s ++ map source_stop (sourcesRef s)
  /\ sourcesRef (interrupt s) = []
  /\ nextStartTimeRef (interrupt s) = 0
  /\ currentOutputTranscription (interrupt s) = []
  /\ sessionStatus (interrupt s) = listening
  /\ currentInputTranscription (interrupt s) = currentInputTranscription s
  /\ chatHistory (interrupt s) = chatHistory s.
Proof.
  unfold interrupt. rewrite stop_all_trace. simpl. repeat split.
Qed.

(** The transcription steps start and stop no audio. *)
Lemma accumulate_audio (sc : option LiveServerContent) (s : State) :
  trace (accumulate sc s) = trace s
  /\ sourcesRef (accumulate sc s) = sourcesRef s
  /\ nextStartTimeRef (accumulate sc s) = nextStartTimeRef s
  /\ outputAudioContextRef (accumulate sc s) = outputAudioContextRef s.
Proof.
  unfold accumulate. split_tests; simpl; repeat split.
Qed.

Lemma completeTurn_audio (s : State) :
  trace (completeTurn host s) = trace s
  /\ sourcesRef (completeTurn host s) = sourcesRef s
  /\ nextStartTimeRef (completeTurn host s) = nextStartTimeRef s
  /\ outputAudioContextRef (completeTurn host s) = outputAudioContextRef s.
Proof.
  unfold completeTurn, now. simpl. split_tests; simpl; repeat split.
Qed.

Lemma beforeAudio_audio (message : LiveServerMessage) (s : State) :
  trace (beforeAudio host message s) = trace s
  /\ sourcesRef (beforeAudio host message s) = sourcesRef s
  /\ nextStartTimeRef (beforeAudio host message s) = nextStartTimeRef s
  /\ outputAudioContextRef (beforeAudio host message s)
     = outputAudioContextRef s.
Proof.
  unfold beforeAudio.
  destruct (accumulate_audio (serverContent message) s) as (Ht & Hs & Hn & Hc).
  destruct (flag (serverContent message) turnComplete).
  - destruct (completeTurn_audio (accumulate (serverContent message) s))
      as (Ht' & Hs' & Hn' & Hc').
    repeat split; congruence.
  - repeat split; assumption.
Qed.

(** A message that is no tool call and carries no audio goes through the
    transcription steps and then, when flagged, through [interrupt]. *)
Lemma onmessage_without_audio (message : LiveServerMessage) (s : State) :
  toolCall message = None ->
  base64AudioOf message = Normal None ->
  onmessage host sessionPromise message s
  = (Returned,
     if flag (serverContent message) interrupted
     then interrupt (beforeAudio host message s)
     else beforeAudio host message s).
Proof.
  intros Htool Haudio. unfold onmessage, audioOutput.
  rewrite Htool, Haudio. reflexivity.
Qed.

(** C3.  An [interrupted] event (a message that is no tool call, carries
    the interrupted flag and no audio of its own) stops every source of the
    pending-playback set, however many there are, leaves the set empty,
    resets [nextStartTimeRef] to zero, clears the output-transcript
    accumulator and sets the session status to listening. *)
Theorem interrupted_discards_playback
    (message : LiveServerMessage) (s : State) :
  toolCall message = None ->
  flag (serverContent message) interrupted = true ->
  base64AudioOf message = Normal None ->
  let s' := snd (onmessage host sessionPromise message s) in
  fst (onmessage host sessionPromise message s) = Returned
  /\ trace s' = trace s ++ map source_stop (sourcesRef s)
  /\ sourcesRef s' = []
  /\ nextStartTimeRef s' = 0
  /\ currentOutputTranscription s' = []
  /\ sessionStatus s' = listening.
Proof.
  intros Htool Hflag Haudio.
  rewrite (onmessage_without_audio _ s Htool Haudio), Hflag.
  cbv zeta; cbn [fst snd].
  destruct (interrupt_effect (beforeAudio host message s))
    as (Ht & Hs & Hn & Ho & Hst & _).
  destruct (beforeAudio_audio message s) as (Ht' & Hs' & _).
  rewrite Ht, Ht', Hs'. repeat split; assumption.
Qed.

(** The audio part and the interruption leave the transcript alone. *)
Lemma playAudio_transcript (payload : JsString) (ctx : AudioContext)
    (s : State) :
  let s' := snd (playAudio host payload ctx s) in
  chatHistory s' = chatHistory s
  /\ chatHistoryRef s' = chatHistoryRef s
  /\ currentInputTranscription s' = currentInputTranscription s
  /\ currentOutputTranscription s' = currentOutputTranscription s.
Proof.
  unfold playAudio, clampSchedule, startSource, outputClock.
  destruct (chain (decode host payload) _); simpl; repeat split.
Qed.

Lemma audioOutput_transcript (message : LiveServerMessage) (s : State) :
  let s' := snd (audioOutput host message s) in
  chatHistory s' = chatHistory s
  /\ chatHistoryRef s' = chatHistoryRef s
  /\ currentInputTranscription s' = currentInputTranscription s
  /\ currentOutputTranscription s' = currentOutputTranscription s.
Proof.
  unfold audioOutput.
  destruct (base64AudioOf message) as [[payload|]|]; simpl; auto.
  destruct (outputAudioContextRef s) as [ctx|]; simpl; auto.
  destruct (truthy payload); simpl; auto.
  apply playAudio_transcript.
Qed.

Lemma onmessage_transcript (message : LiveServerMessage) (s : State) :
  toolCall message = None ->
  let s0 := beforeAudio host message s in
  let s' := snd (onmessage host sessionPromise message s) in
  chatHistory s' = chatHistory s0
  /\ chatHistoryRef s' = chatHistoryRef s0
  /\ currentInputTranscription s' = currentInputTranscription s0
  /\ (currentOutputTranscription s' = currentOutputTranscription s0
      \/ currentOutputTranscription s' = []).
Proof.
  intros Htool s0 s'. subst s' s0. unfold onmessage. rewrite Htool.
  cbv zeta.
  pose proof (audioOutput_transcript message (beforeAudio host message s))
    as Haudio.
  destruct (audioOutput host message (beforeAudio host message s))
    as [[|] s1]; cbn [fst snd] in *.
  - destruct Haudio as (H1 & H2 & H3 & H4).
    destruct (flag (serverContent message) interrupted).
    + destruct (interrupt_effect s1) as (_ & _ & _ & Ho & _ & Hi & Hc).
      unfold interrupt in *. rewrite stop_all_trace in *. simpl in *.
      repeat split; auto.
    + repeat split; auto.
  - destruct Haudio as (H1 & H2 & H3 & H4). repeat split; auto.
Qed.

(** ** Turn boundaries *)

Lemma accumulate_idle (sc : option LiveServerContent) (s : State) :
  chain sc outputTranscription = None ->
  chain sc inputTranscription = None ->
  accumulate sc s = s.
Proof.
  intros Hout Hin. unfold accumulate. now rewrite Hout, Hin.
Qed.

Lemma accumulate_keeps_input (sc : option LiveServerContent) (s : State) :
  chain sc inputTranscription = None ->
  currentInputTranscription (accumulate sc s) = currentInputTranscription s.
Proof.
  intros Hin. unfold accumulate. rewrite Hin.
  destruct (chain sc outputTranscription); reflexivity.
Qed.

(** Both sides spoke: two turns, the candidate's first. *)
Lemma completeTurn_both (s : State) :
  truthy (trim (currentInputTranscription s)) = true ->
  truthy (trim (currentOutputTranscription s)) = true ->
  let s' := completeTurn host s in
  chatHistory s'
  = chatHistory s
      ++ [mkChatMessage user (currentInputTranscription s)
            (Date_now host (instant s)) None;
          mkChatMessage model (currentOutputTranscription s)
            (Date_now host (S (instant s))) None]
  /\ chatHistoryRef s' = chatHistory s'
  /\ currentInputTranscription s' = []
  /\ currentOutputTranscription s' = []
  /\ sessionStatus s' = listening.
Proof.
  intros Hin Hout. unfold completeTurn, now. simpl.
  rewrite Hin, Hout. simpl. rewrite <- app_assoc. repeat split.
Qed.

(** Neither side spoke: nothing but the status changes. *)
Lemma completeTurn_silent (s : State) :
  truthy (trim (currentInputTranscription s)) = false ->
  truthy (trim (currentOutputTranscription s)) = false ->
  completeTurn host s = set_sessionStatus listening s.
Proof.
  intros Hin Hout. unfold completeTurn. simpl. now rewrite Hin, Hout.
Qed.

(** C4.  A [turnComplete] event (a message that is no tool call, carries
    the turn-complete flag and no transcription fragment of its own): when
    both accumulators are non-empty after trimming, exactly two turns are
    appended, the candidate's (user) before the interviewer's (model), and
    both accumulators are cleared; when both are empty after trimming,
    no turn is appended. *)
Theorem turnComplete_appends_turns
    (message : LiveServerMessage) (s : State) :
  toolCall message = None ->
  flag (serverContent message) turnComplete = true ->
  chain (serverContent message) outputTranscription = None ->
  chain (serverContent message) inputTranscription = None ->
  let s' := snd (onmessage host sessionPromise message s) in
  (truthy (trim (currentInputTranscription s)) = true ->
   truthy (trim (currentOutputTranscription s)) = true ->
   (exists t1 t2,
      chatHistory s'
      = chatHistory s
          ++ [mkChatMessage user (currentInputTranscription s) t1 None;
              mkChatMessage model (currentOutputTranscription s) t2 None])
   /\ currentInputTranscription s' = []
   /\ currentOutputTranscription s' = [])
  /\ (truthy (trim (currentInputTranscription s)) = false ->
      truthy (trim (currentOutputTranscription s)) = false ->
      chatHistory s' = chatHistory s).
Proof.
  intros Htool Hflag Hout Hin s'.
  destruct (onmessage_transcript message s Htool) as (Hc & _ & Hi & Ho).
  fold s' in Hc, Hi, Ho.
  assert (Hbefore : beforeAudio host message s = completeTurn host s).
  { unfold beforeAudio. now rewrite Hflag, accumulate_idle. }
  rewrite Hbefore in *. split.
  - intros Huser Hmodel.
    destruct (completeTurn_both s Huser Hmodel) as (Hh & _ & Hi' & Ho' & _).
    rewrite Hc, Hi, Hh, Hi'. repeat split.
    + eauto.
    + destruct Ho as [Ho|Ho]; congruence.
  - intros Huser Hmodel. rewrite Hc, (completeTurn_silent s Huser Hmodel).
    reflexivity.
Qed.

(** C7, as amended.  An interruption (a message that is no tool call,
    carries the interrupted flag, no audio, no turn boundary and no inbound
    fragment) clears the outbound (interviewer) accumulator and leaves the
    inbound (candidate) accumulator as it was. *)
Theorem interruption_clears_outbound_only
    (message : LiveServerMessage) (s : State) :
  toolCall message = None ->
  flag (serverContent message) interrupted = true ->
  base64AudioOf message = Normal None ->
  flag (serverContent message) turnComplete = false ->
  chain (serverContent message) inputTranscription = None ->
  let s' := snd (onmessage host sessionPromise message s) in
  currentOutputTranscription s' = []
  /\ currentInputTranscription s' = currentInputTranscription s.
Proof.
  intros Htool Hflag Haudio Hturn Hin.
  rewrite (onmessage_without_audio _ s Htool Haudio), Hflag.
  cbv zeta; cbn [fst snd].
  destruct (interrupt_effect (beforeAudio host message s))
    as (_ & _ & _ & Ho & _ & Hi & _).
  rewrite Ho, Hi. split; [reflexivity|].
  unfold beforeAudio. rewrite Hturn. now apply accumulate_keeps_input.
Qed.

(** ** Tool calls *)

Lemma injectCoaching_frame (m : InterviewerMindset) (s : State) :
  let s' := injectCoaching host m s in
  trace s' = trace s
  /\ mindset s' = mindset s
  /\ nextStartTimeRef s' = nextStartTimeRef s
  /\ sourcesRef s' = sourcesRef s
  /\ chatHistoryRef s' = chatHistory s'.
Proof.
  unfold injectCoaching, now. split_tests; simpl; repeat split.
Qed.

(** The updater appends the coaching turns of the mindset, each stamped
    with the clock reading taken when it is pushed. *)
Lemma injectCoaching_history (m : InterviewerMindset) (s : State) :
  let n := instant s in
  let n2 := (n + readings (chain (last_answer_feedback m) advice))%nat in
  let n3 := (n2 + readings (reference_answer_for_question m))%nat in
  chatHistory (injectCoaching host m s)
  = chatHistory s
      ++ coachingTurns m (Date_now host n) (Date_now host n2)
           (Date_now host n3).
Proof.
  unfold injectCoaching, coachingTurns, turnIfPresent, readings, present,
    truthy_opt, now.
  destruct (chain (last_answer_feedback m) advice) as [a|];
    [destruct (truthy a)|];
    (destruct (reference_answer_for_question m) as [r|];
      [destruct (truthy r)|]);
    (destruct (suggested_answer_tips m) as [h|];
      [destruct (truthy h)|]);
    simpl; rewrite ?Nat.add_0_r, ?Nat.add_1_r, <- ?app_assoc, ?app_nil_r;
    reflexivity.
Qed.

(** Capture times in order give strictly increasing timestamps. *)
Lemma coachingTurns_sorted (m : InterviewerMindset) (t1 t2 t3 : Z) :
  (t1 <= t2 <= t3)%Z ->
  StronglySorted Z.lt (map timestamp (coachingTurns m t1 t2 t3)).
Proof.
  intros Ht. unfold coachingTurns, turnIfPresent.
  destruct (chain (last_answer_feedback m) advice) as [a|];
    [destruct (truthy a)|];
    (destruct (reference_answer_for_question m) as [r|];
      [destruct (truthy r)|]);
    (destruct (suggested_answer_tips m) as [h|];
      [destruct (truthy h)|]);
    simpl; repeat constructor; lia.
Qed.

Lemma update_mindset_call (call : FunctionCall) (s : State) :
  strict_equal (name call) update_mindset = true ->
  handleFunctionCall host sessionPromise call s
  = emit (sendToolResponse sessionPromise (acknowledgment call))
      (injectCoaching host (args call) (set_mindset (args call) s)).
Proof.
  intros Hname. unfold handleFunctionCall. now rewrite Hname.
Qed.

Lemma update_mindset_name (callId : JsString) (m : InterviewerMindset) :
  strict_equal (name (mkFunctionCall (Some callId) (Some update_mindset) m))
    update_mindset = true.
Proof.
  unfold strict_equal, JsString_eqb. simpl.
  destruct (list_eq_dec N.eq_dec update_mindset update_mindset); congruence.
Qed.

(** Every [update_mindset] call of a message is acknowledged, in order;
    calls of any other name are passed over. *)
Lemma handleToolCall_trace (calls : list FunctionCall) (s : State) :
  trace (handleToolCall host sessionPromise calls s)
  = trace s
      ++ map (fun call => sendToolResponse sessionPromise (acknowledgment call))
           (filter answered calls).
Proof.
  unfold handleToolCall.
  revert s; induction calls as [|call calls IH]; intro s; simpl.
  - now rewrite app_nil_r.
  - rewrite IH. unfold handleFunctionCall, answered.
    destruct (strict_equal (name call) update_mindset); simpl.
    + destruct (injectCoaching_frame (args call) (set_mindset (args call) s))
        as (Ht & _). cbv zeta in Ht. rewrite Ht. simpl.
      now rewrite <- app_assoc.
    + reflexivity.
Qed.

Lemma handleToolCall_audio (calls : list FunctionCall) (s : State) :
  nextStartTimeRef (handleToolCall host sessionPromise calls s)
  = nextStartTimeRef s
  /\ sourcesRef (handleToolCall host sessionPromise calls s) = sourcesRef s.
Proof.
  unfold handleToolCall.
  revert s; induction calls as [|call calls IH]; intro s; simpl.
  - split; reflexivity.
  - destruct (IH (handleFunctionCall host sessionPromise call s)) as (Hn & Hs).
    rewrite Hn, Hs. unfold handleFunctionCall.
    destruct (strict_equal (name call) update_mindset); simpl.
    + destruct (injectCoaching_frame (args call) (set_mindset (args call) s))
        as (_ & _ & Hn' & Hs' & _). cbv zeta in Hn', Hs'.
      now rewrite Hn', Hs'.
    + split; reflexivity.
Qed.

(** C2.  An [update_mindset] tool call replaces the mindset with the
    arguments of the call and sends the acknowledgment, a tool response
    that carries the identifier and the name of the call and the payload
    [{ result: "ok" }].  In particular, a call whose arguments hold no
    feedback, no reference answer and no hint appends no transcript turn,
    and still updates the mindset and sends the acknowledgment. *)
Theorem update_mindset_acknowledged
    (callArgs : InterviewerMindset) (callId : JsString) (s : State) :
  let message := toolCallEvent update_mindset callArgs callId in
  let s' := snd (onmessage host sessionPromise message s) in
  fst (onmessage host sessionPromise message s) = Returned
  /\ mindset s' = callArgs
  /\ trace s'
     = trace s
         ++ [sendToolResponse sessionPromise
               [mkFunctionResponse (Some callId) (Some update_mindset)
                  (js "ok")]]
  /\ (last_answer_feedback callArgs = None ->
      reference_answer_for_question callArgs = None ->
      suggested_answer_tips callArgs = None ->
      chatHistory s' = chatHistory s).
Proof.
  intros message s'. subst s' message. unfold onmessage, toolCallEvent.
  cbn [toolCall functionCalls fst snd]. unfold handleToolCall.
  cbn [fold_left]. rewrite update_mindset_call by apply update_mindset_name.
  cbn [args].
  destruct (injectCoaching_frame callArgs (set_mindset callArgs s))
    as (Ht & Hm & _). cbv zeta in Ht, Hm.
  repeat split.
  - cbn. exact Hm.
  - unfold emit. cbn [trace set_trace]. now rewrite Ht.
  - intros Hfb Href Htips. unfold emit. cbn [chatHistory set_trace].
    rewrite injectCoaching_history.
    unfold coachingTurns. rewrite Hfb, Href, Htips. simpl.
    now rewrite app_nil_r.
Qed.

(** C5.  An [update_mindset] tool call appends its coaching turns in a
    fixed order: the coach-feedback turn when [last_answer_feedback.advice]
    is present, then the coach-reference turn when
    [reference_answer_for_question] is present, then the coach-hint turn
    when [suggested_answer_tips] is present.  Each turn is stamped with its
    capture time plus 0, 50 and 100 milliseconds; on a wall clock that does
    not run backwards the timestamps of the appended turns increase
    strictly, so sorting by timestamp keeps the order. *)
Theorem coaching_turns_in_fixed_order
    (callArgs : InterviewerMindset) (callId : JsString) (s : State) :
  (forall i j : nat, (i <= j)%nat -> (Date_now host i <= Date_now host j)%Z) ->
  let message := toolCallEvent update_mindset callArgs callId in
  let s' := snd (onmessage host sessionPromise message s) in
  exists t1 t2 t3 : Z,
    (t1 <= t2 <= t3)%Z
    /\ chatHistory s' = chatHistory s ++ coachingTurns callArgs t1 t2 t3
    /\ StronglySorted Z.lt (map timestamp (coachingTurns callArgs t1 t2 t3)).
Proof.
  intros Hclock message s'. subst s' message. unfold onmessage, toolCallEvent.
  cbn [toolCall functionCalls fst snd]. unfold handleToolCall.
  cbn [fold_left]. rewrite update_mindset_call by apply update_mindset_name.
  cbn [args]. unfold emit. cbn [chatHistory set_trace].
  rewrite injectCoaching_history. cbn [instant set_mindset].
  set (n := instant s).
  set (n2 := (n + readings (chain (last_answer_feedback callArgs) advice))%nat).
  set (n3 := (n2 + readings (reference_answer_for_question callArgs))%nat).
  assert (Horder : (Date_now host n <= Date_now host n2 <= Date_now host n3)%Z).
  { split; apply Hclock; subst n2 n3; lia. }
  exists (Date_now host n), (Date_now host n2), (Date_now host n3).
  split; [exact Horder|]. split; [reflexivity|].
  now apply coachingTurns_sorted.
Qed.

(** ** The playback schedule *)

Lemma duration_nonneg (b : AudioBuffer) : 0 <= duration b.
Proof. unfold duration, Qle; simpl. lia. Qed.

Lemma schedule_app (xs ys : list Effect) :
  schedule (xs ++ ys) = schedule xs ++ schedule ys.
Proof.
  induction xs as [|[] xs IH]; simpl; rewrite ?IH; reflexivity.
Qed.

Lemma schedule_acknowledgments (calls : list FunctionCall) :
  schedule
    (map (fun call => sendToolResponse sessionPromise (acknowledgment call))
       calls) = [].
Proof. induction calls; simpl; auto. Qed.

(** Two schedules that a time bound separates join into one. *)
Lemma back_to_back_app (bound : Q) (xs ys : list Segment) :
  back_to_back xs -> back_to_back ys ->
  Forall (fun g => start g + seg_duration g <= bound) xs ->
  Forall (fun g => bound <= start g) ys ->
  back_to_back (xs ++ ys).
Proof.
  intros Hxs Hys Hends Hstarts.
  induction xs as [|a xs IH]; simpl; [assumption|].
  destruct Hxs as [Hnext Hxs]. inversion Hends as [|? ? Ha Hends']; subst.
  split; [|now apply IH].
  destruct xs as [|b xs]; simpl.
  - destruct ys as [|b ys]; [exact I|].
    inversion Hstarts; subst. eapply Qle_trans; eassumption.
  - exact Hnext.
Qed.

Lemma continues_refl (s : State) : continues s s.
Proof.
  exists []. rewrite app_nil_r. simpl.
  repeat split; auto using Qle_refl.
Qed.

Lemma continues_trans (s1 s2 s3 : State) :
  continues s1 s2 -> continues s2 s3 -> continues s1 s3.
Proof.
  intros (xs & Ht1 & Hb1 & Hs1 & He1 & Hn1) (ys & Ht2 & Hb2 & Hs2 & He2 & Hn2).
  exists (xs ++ ys). rewrite schedule_app. repeat split.
  - now rewrite Ht2, Ht1, app_assoc.
  - now apply back_to_back_app with (bound := nextStartTimeRef s2).
  - apply Forall_app; split; [assumption|].
    eapply Forall_impl; [|exact Hs2]. intros g Hg.
    now apply Qle_trans with (nextStartTimeRef s2).
  - apply Forall_app; split; [|assumption].
    eapply Forall_impl; [|exact He1]. intros g Hg.
    now apply Qle_trans with (nextStartTimeRef s2).
  - now apply Qle_trans with (nextStartTimeRef s2).
Qed.

(** A state that differs in neither the trace nor the scheduled end. *)
Lemma continues_same (s s' : State) :
  trace s' = trace s -> nextStartTimeRef s' = nextStartTimeRef s ->
  continues s s'.
Proof.
  intros Ht Hn. exists []. rewrite app_nil_r, Hn. simpl.
  repeat split; auto using Qle_refl.
Qed.

(** What [playAudio] does when the payload decodes. *)
Lemma playAudio_decoded (payload : JsString) (ctx : AudioContext)
    (bytes : list Byte.byte) (audioBuffer : AudioBuffer) (s : State) :
  decode host payload = Some bytes ->
  decodeAudioData host bytes ctx 24000 1 = Some audioBuffer ->
  let when := Qmax (nextStartTimeRef s) (currentTime host (instant s)) in
  let s' := snd (playAudio host payload ctx s) in
  fst (playAudio host payload ctx s) = Returned
  /\ trace s'
     = trace s ++ [source_start (mkSource (allocated s) audioBuffer) when]
  /\ nextStartTimeRef s' = when + duration audioBuffer
  /\ sourcesRef s'
     = Set_add (mkSource (allocated s) audioBuffer) (sourcesRef s)
  /\ sessionStatus s' = speaking.
Proof.
  intros Hdecode Hbuffer.
  unfold playAudio, clampSchedule, startSource, outputClock.
  rewrite Hdecode. cbn [chain]. rewrite Hbuffer. simpl. repeat split.
Qed.

Lemma clampSchedule_continues (s : State) :
  continues s (clampSchedule host s).
Proof.
  unfold clampSchedule, outputClock. simpl.
  exists []. rewrite app_nil_r. simpl.
  repeat split; auto. apply Q.le_max_l.
Qed.

Lemma startSource_continues (audioBuffer : AudioBuffer) (s : State) :
  continues s (startSource audioBuffer s).
Proof.
  unfold startSource. simpl.
  exists [source_start (mkSource (allocated s) audioBuffer)
            (nextStartTimeRef s)].
  simpl. repeat split; try (constructor; [|constructor]); simpl.
  - apply Qle_refl.
  - apply Qle_refl.
  - rewrite <- Qplus_0_r at 1. apply Qplus_le_r, duration_nonneg.
Qed.

Lemma playAudio_continues (payload : JsString) (ctx : AudioContext)
    (s : State) :
  continues s (snd (playAudio host payload ctx s)).
Proof.
  unfold playAudio.
  destruct (chain (decode host payload) _) as [audioBuffer|]; cbn [snd].
  - eapply continues_trans;
      [apply clampSchedule_continues|apply startSource_continues].
  - apply clampSchedule_continues.
Qed.

(** However the halves of the audio part interleave, what they schedule
    stays back to back. *)
Lemma audioSteps_continue (steps : list AudioStep) (s : State) :
  continues s (audioSteps host steps s).
Proof.
  unfold audioSteps. revert s.
  induction steps as [|step steps IH]; intro s; cbn [fold_left].
  - apply continues_refl.
  - apply continues_trans with (audioStep host step s); [|apply IH].
    destruct step; [apply clampSchedule_continues|apply startSource_continues].
Qed.

Lemma audioOutput_continues (message : LiveServerMessage) (s : State) :
  continues s (snd (audioOutput host message s)).
Proof.
  unfold audioOutput.
  destruct (base64AudioOf message) as [[payload|]|]; simpl;
    try apply continues_refl.
  destruct (outputAudioContextRef s) as [ctx|]; simpl;
    try apply continues_refl.
  destruct (truthy payload); simpl; try apply continues_refl.
  apply playAudio_continues.
Qed.

(** Every message that does not interrupt continues the schedule. *)
Lemma onmessage_continues (message : LiveServerMessage) (s : State) :
  interrupts message = false ->
  continues s (snd (onmessage host sessionPromise message s)).
Proof.
  unfold interrupts, onmessage.
  destruct (toolCall message) as [call|].
  - intros _. destruct (functionCalls call) as [calls|]; simpl.
    + exists (map (fun c => sendToolResponse sessionPromise (acknowledgment c))
                (filter answered calls)).
      rewrite schedule_acknowledgments, handleToolCall_trace.
      destruct (handleToolCall_audio calls s) as (Hn & _). rewrite Hn.
      simpl. repeat split; auto using Qle_refl.
    + apply continues_refl.
  - intros Hflag. rewrite Hflag. cbv zeta.
    apply continues_trans with (beforeAudio host message s).
    + destruct (beforeAudio_audio message s) as (Ht & _ & Hn & _).
      now apply continues_same.
    + pose proof (audioOutput_continues message (beforeAudio host message s))
        as Hc.
      destruct (audioOutput host message (beforeAudio host message s))
        as [[|] s1]; exact Hc.
Qed.

Lemma deliver_continues (messages : list LiveServerMessage) (s : State) :
  forallb (fun m => negb (interrupts m)) messages = true ->
  continues s (deliver host sessionPromise messages s).
Proof.
  unfold deliver. revert s.
  induction messages as [|message messages IH]; intros s Hall;
    cbn [fold_left].
  - apply continues_refl.
  - cbn [forallb] in Hall. apply andb_true_iff in Hall as [Hm Hall].
    apply negb_true_iff in Hm.
    apply continues_trans
      with (snd (onmessage host sessionPromise message s)).
    + now apply onmessage_continues.
    + now apply IH.
Qed.

Lemma scheduledEnds_nondecreasing (messages : list LiveServerMessage)
    (s : State) :
  forallb (fun m => negb (interrupts m)) messages = true ->
  nondecreasing
    (nextStartTimeRef s :: scheduledEnds host sessionPromise messages s).
Proof.
  revert s. induction messages as [|message messages IH]; intros s Hall.
  - simpl. auto.
  - cbn [forallb] in Hall. apply andb_true_iff in Hall as [Hm Hall].
    apply negb_true_iff in Hm.
    change (nextStartTimeRef s
            <= nextStartTimeRef (snd (onmessage host sessionPromise message s))
            /\ nondecreasing
                 (nextStartTimeRef
                    (snd (onmessage host sessionPromise message s))
                  :: scheduledEnds host sessionPromise messages
                       (snd (onmessage host sessionPromise message s)))).
    split; [|now apply IH].
    destruct (onmessage_continues message s Hm) as (_ & _ & _ & _ & _ & Hn).
    exact Hn.
Qed.

Lemma audioChunks_do_not_interrupt (payloads : list JsString) :
  forallb (fun m => negb (interrupts m)) (map audioChunk payloads) = true.
Proof. induction payloads; simpl; auto. Qed.

(** An [audioChunk] event goes straight to the audio part. *)
Lemma onmessage_audioChunk (payload : JsString) (s : State) :
  onmessage host sessionPromise (audioChunk payload) s
  = let (outcome, s') :=
      match outputAudioContextRef s with
      | Some ctx =>
          if truthy payload then playAudio host payload ctx s
          else (Returned, s)
      | None => (Returned, s)
      end in
    match outcome with
    | Returned => (Returned, s')
    | Threw => (Threw, s')
    end.
Proof.
  unfold onmessage, audioOutput, beforeAudio, audioChunk.
  cbn [toolCall serverContent flag turnComplete interrupted accumulate chain
       outputTranscription inputTranscription base64AudioOf modelTurn parts
       hd_error inlineData data].
  reflexivity.
Qed.

(** C1.  Playback scheduling.  First, one [audioChunk] event whose payload
    decodes: the buffer is started at
    [max(nextStartTimeRef, ctx.currentTime)] and [nextStartTimeRef] is then
    that start plus the duration of the buffer.  Second, every sequence of
    [audioChunk] events, decodable or not: the segments it schedules are
    back to back in arrival order (each starts no earlier than the end of
    the one before), and the scheduled end time never decreases from one
    event to the next.  Third, the same holds of the segments when the
    decoder suspends and the two halves of the audio part interleave in any
    order. *)
Theorem playback_schedule_gapless :
  (forall (s : State) (payload : JsString) (ctx : AudioContext)
          (bytes : list Byte.byte) (audioBuffer : AudioBuffer),
      outputAudioContextRef s = Some ctx ->
      truthy payload = true ->
      decode host payload = Some bytes ->
      decodeAudioData host bytes ctx 24000 1 = Some audioBuffer ->
      let when := Qmax (nextStartTimeRef s) (currentTime host (instant s)) in
      let s' := snd (onmessage host sessionPromise (audioChunk payload) s) in
      schedule (trace s')
      = schedule (trace s) ++ [mkSegment when (duration audioBuffer)]
      /\ nextStartTimeRef s' = when + duration audioBuffer)
  /\ (forall (payloads : list JsString) (s : State),
         let messages := map audioChunk payloads in
         let s' := deliver host sessionPromise messages s in
         (exists added : list Effect,
             trace s' = trace s ++ added
             /\ back_to_back (schedule added))
         /\ nondecreasing
              (nextStartTimeRef s
               :: scheduledEnds host sessionPromise messages s))
  /\ (forall (steps : list AudioStep) (s : State),
         exists added : list Effect,
           trace (audioSteps host steps s) = trace s ++ added
           /\ back_to_back (schedule added)
           /\ nextStartTimeRef s <= nextStartTimeRef (audioSteps host steps s)).
Proof.
  split; [|split].
  - intros s payload ctx bytes audioBuffer Hctx Hpayload Hdecode Hbuffer.
    rewrite onmessage_audioChunk, Hctx, Hpayload.
    destruct (playAudio_decoded payload ctx s Hdecode Hbuffer)
      as (Hout & Ht & Hn & _).
    destruct (playAudio host payload ctx s) as [outcome s1].
    cbn [fst snd] in *. subst outcome. cbn [snd].
    rewrite Ht, Hn, schedule_app. split; reflexivity.
  - intros payloads s messages s'. split.
    + destruct (deliver_continues (map audioChunk payloads) s
                  (audioChunks_do_not_interrupt payloads))
        as (added & Ht & Hb & _).
      exists added. split; assumption.
    + apply scheduledEnds_nondecreasing, audioChunks_do_not_interrupt.
  - intros steps s.
    destruct (audioSteps_continue steps s) as (added & Ht & Hb & _ & _ & Hn).
    exists added. repeat split; assumption.
Qed.

(** ** Reconnection *)

Lemma slice_last_suffix {A : Type} (n : nat) (xs : list A) :
  exists older, xs = older ++ slice_last n xs.
Proof.
  exists (firstn (length xs - n) xs). unfold slice_last.
  now rewrite firstn_skipn.
Qed.

Lemma slice_last_length {A : Type} (n : nat) (xs : list A) :
  length (slice_last n xs) = Nat.min n (length xs).
Proof. unfold slice_last. rewrite length_skipn. lia. Qed.

Lemma filter_all {A : Type} (p : A -> bool) (xs : list A) :
  forallb p xs = true -> filter p xs = xs.
Proof.
  induction xs as [|x xs IH]; simpl; [reflexivity|].
  intros H. apply andb_true_iff in H as [Hx Hxs]. now rewrite Hx, IH.
Qed.

(** What a retry hands to [ai.live.connect]. *)
Lemma connectToGemini_retry (config : InterviewConfig) (s : State) :
  API_KEY host = true ->
  exists closes : list Effect,
    trace (connectToGemini host config true None s)
    = trace s ++ closes
        ++ [live_connect (allocated s)
              (finalSystemInstruction config true (chatHistoryRef s))].
Proof.
  intros Hkey. unfold connectToGemini. rewrite Hkey. cbn [negb].
  destruct (activeSessionRef s) as [session|]; simpl;
    destruct (outputAudioContextRef s) as [ctx|]; simpl.
  1, 2: exists [session_close session]; now rewrite <- app_assoc.
  1, 2: exists []; reflexivity.
Qed.

(** C6, as amended.  On a reconnect with a non-empty transcript (as held in
    [chatHistoryRef]) the instruction handed to the endpoint is the system
    instruction, the restored-connection header and one line per replayed
    turn, oldest first, [Candidate: text] for a user turn and
    [Interviewer: text] for a model turn.  The replayed turns are the most
    recent twenty of the candidate and interviewer turns: coaching turns
    are filtered out before the last twenty are taken.  Where the
    transcript holds no coaching turn they are its most recent twenty
    turns. *)
Theorem reconnect_replays_recent_dialogue
    (config : InterviewConfig) (s : State) :
  API_KEY host = true ->
  chatHistoryRef s <> [] ->
  let history := chatHistoryRef s in
  let dialogue := filter isDialogueTurn history in
  (exists closes : list Effect,
      trace (connectToGemini host config true None s)
      = trace s ++ closes
          ++ [live_connect (allocated s)
                (systemInstruction config ++ restoredHeader
                   ++ join newline
                        (map transcriptLine (replayedTurns history)))])
  /\ (exists older, dialogue = older ++ replayedTurns history)
  /\ length (replayedTurns history) = Nat.min 20 (length dialogue)
  /\ (forallb isDialogueTurn history = true ->
      replayedTurns history = slice_last 20 history).
Proof.
  intros Hkey Hhistory history dialogue. repeat split.
  - destruct (connectToGemini_retry config s Hkey) as (closes & Ht).
    exists closes. rewrite Ht. unfold finalSystemInstruction.
    destruct (chatHistoryRef s) as [|turn turns] eqn:Hh; [congruence|].
    reflexivity.
  - apply slice_last_suffix.
  - apply slice_last_length.
  - intros Hall. unfold replayedTurns. now rewrite filter_all.
Qed.

(** ** The microphone *)

Lemma injectCoaching_mic (m : InterviewerMindset) (s : State) :
  isMicOn (injectCoaching host m s) = isMicOn s
  /\ isMicOnRef (injectCoaching host m s) = isMicOnRef s.
Proof.
  unfold injectCoaching, now. split_tests; simpl; split; reflexivity.
Qed.

Lemma handleToolCall_mic (session : Session) (calls : list FunctionCall)
    (s : State) :
  isMicOn (handleToolCall host session calls s) = isMicOn s
  /\ isMicOnRef (handleToolCall host session calls s) = isMicOnRef s.
Proof.
  unfold handleToolCall.
  revert s; induction calls as [|call calls IH]; intro s; simpl.
  - split; reflexivity.
  - destruct (IH (handleFunctionCall host session call s)) as (H1 & H2).
    rewrite H1, H2. unfold handleFunctionCall.
    destruct (strict_equal (name call) update_mindset); simpl.
    + destruct (injectCoaching_mic (args call) (set_mindset (args call) s))
        as (E1 & E2).
      rewrite E1, E2. split; reflexivity.
    + split; reflexivity.
Qed.

Lemma onmessage_mic (session : Session) (message : LiveServerMessage)
    (s : State) :
  isMicOn (snd (onmessage host session message s)) = isMicOn s
  /\ isMicOnRef (snd (onmessage host session message s)) = isMicOnRef s.
Proof.
  unfold onmessage.
  destruct (toolCall message) as [call|].
  - destruct (functionCalls call); simpl; auto using handleToolCall_mic.
  - cbv zeta.
    assert (Hbefore :
              isMicOn (beforeAudio host message s) = isMicOn s
              /\ isMicOnRef (beforeAudio host message s) = isMicOnRef s).
    { unfold beforeAudio, accumulate, completeTurn, now.
      split_tests; simpl; split; reflexivity. }
    destruct Hbefore as (Hb1 & Hb2). rewrite <- Hb1, <- Hb2.
    generalize (beforeAudio host message s). intros s0.
    unfold audioOutput, playAudio, clampSchedule, startSource, outputClock,
      interrupt.
    rewrite ?stop_all_trace.
    split_tests; simpl; try rewrite stop_all_trace;
      repeat match goal with
             | H : (_, _) = (_, _) |- _ => inversion H; clear H; subst
             end;
      simpl; split; reflexivity.
Qed.

(** The state cell and the ref of the microphone always agree. *)
Lemma mic_flag_in_sync (config : InterviewConfig) (s : State) :
  reachable host config s -> isMicOnRef s = isMicOn s.
Proof.
  induction 1 as [ | isRetry failure s _ IH | isRetry s _ IH | s _ IH
                   | session message s _ IH | source s _ IH
                   | session seen inputData s _ IH | s _ IH | input s _ IH
                   | s _ IH ].
  - reflexivity.
  - unfold connectToGemini, emit. split_tests; simpl; exact IH.
  - exact IH.
  - exact IH.
  - destruct (onmessage_mic session message s) as (H1 & H2). congruence.
  - unfold onended. split_tests; simpl; exact IH.
  - unfold onaudioprocess, emit. split_tests; simpl; exact IH.
  - reflexivity.
  - exact IH.
  - unfold handleSteering, now, emit. split_tests; simpl; exact IH.
Qed.

(** The audio-frame tap consults the flag before it sends. *)
Lemma onaudioprocess_gated (seen : SessionStatus) (inputData : list Q)
    (s : State) :
  let s' := onaudioprocess host sessionPromise seen inputData s in
  if isMicOnRef s
  then trace s'
       = trace s
           ++ [sendRealtimeInput sessionPromise
                 (media (createPcmBlob host inputData))]
  else s' = s.
Proof.
  unfold onaudioprocess, emit.
  destruct (isMicOnRef s); simpl; [|reflexivity].
  split_tests; reflexivity.
Qed.

(** C9.  Toggling the microphone flips the flag the audio-frame tap
    consults before each send ([isMicOnRef], and the state cell that mirrors
    it) and nothing else: no call leaves the component, so the transport is
    neither closed nor reopened, and the connection status, the session
    handle and every other field are as before. *)
Theorem toggleMic_only_flips_flag (config : InterviewConfig) (s : State) :
  reachable host config s ->
  let s' := toggleMic s in
  isMicOnRef s' = negb (isMicOnRef s)
  /\ isMicOn s' = negb (isMicOn s)
  /\ s' = set_isMicOn (negb (isMicOn s))
            (set_isMicOnRef (negb (isMicOnRef s)) s)
  /\ connectionStatus s' = connectionStatus s
  /\ activeSessionRef s' = activeSessionRef s
  /\ trace s' = trace s
  /\ (forall (seen : SessionStatus) (inputData : list Q),
         let sent := onaudioprocess host sessionPromise seen inputData s' in
         if isMicOnRef s'
         then trace sent
              = trace s'
                  ++ [sendRealtimeInput sessionPromise
                        (media (createPcmBlob host inputData))]
         else sent = s').
Proof.
  intros Hreach s'. pose proof (mic_flag_in_sync Hreach) as Hsync.
  split; [|split; [|split; [|split; [|split; [|split]]]]];
    try (subst s'; unfold toggleMic; simpl; rewrite ?Hsync; reflexivity).
  intros seen inputData. exact (onaudioprocess_gated seen inputData s').
Qed.

(** ** Steering *)

(** C10.  The send-steering command.  With a steering text that is empty
    or only whitespace, or with no active session handle, it changes
    nothing at all: the transcript is as before and nothing is sent.
    Otherwise it appends exactly one user turn, the text prefixed with the
    directive marker, and sends exactly one content message carrying the
    text on the active session. *)
Theorem handleSteering_sends_directive (s : State) :
  (truthy (trim (steeringInput s)) = false \/ activeSessionRef s = None ->
   handleSteering host s = s)
  /\ (forall session : Session,
         truthy (trim (steeringInput s)) = true ->
         activeSessionRef s = Some session ->
         let s' := handleSteering host s in
         chatHistory s'
         = chatHistory s
             ++ [mkChatMessage user (lit_directive ++ steeringInput s)
                   (Date_now host (instant s)) None]
         /\ trace s'
            = trace s
                ++ [sendRealtimeInput session
                      (content
                         (mkContent (Some (js "user"))
                            (Some [mkPart
                                     (Some (js "[System Instruction: "
                                              ++ steeringInput s ++ js "]"))
                                     None])))]).
Proof.
  unfold handleSteering. split.
  - intros [Hempty|Hsession].
    + now rewrite Hempty.
    + rewrite Hsession. now destruct (truthy (trim (steeringInput s))).
  - intros session Htext Hsession. rewrite Htext, Hsession.
    unfold now, emit, steeringMessage. simpl. split; reflexivity.
Qed.

End Properties.

(* ================================================================== *)
(** * The audio codec *)

Module AudioUtilsFacts.
Import AudioUtils.

(** ** Bytes *)

Lemma byte_of_to_N (b : Byte.byte) : byte_of_N (Byte.to_N b) = b.
Proof.
  unfold byte_of_N. pose proof (Byte.to_N_bounded b) as Hb.
  rewrite N.mod_small by lia. now rewrite Byte.of_to_N.
Qed.

Lemma to_N_byte_of (n : N) : (n < 256)%N -> Byte.to_N (byte_of_N n) = n.
Proof.
  intros Hn. unfold byte_of_N. rewrite N.mod_small by lia.
  pose proof (Byte.to_of_N_option_map n) as H.
  destruct (Byte.of_N n) as [b|]; simpl in H.
  - destruct (N.leb n 255); congruence.
  - destruct (N.leb_spec n 255); [discriminate|lia].
Qed.

Lemma base64_index_char (n : N) :
  (n < 64)%N -> base64_index (base64_char n) = Some n.
Proof.
  intros Hn. unfold base64_index, base64_char.
  repeat match goal with
         | |- context [(?a <? ?b)%N] => destruct (N.ltb_spec a b)
         | |- context [(?a <=? ?b)%N] => destruct (N.leb_spec a b)
         | |- context [(?a =? ?b)%N] => destruct (N.eqb_spec a b)
         | |- context [andb _ _] => cbn [andb]
         end; try (f_equal; lia); try lia.
Qed.

Lemma group3 (a b c : N) : (a < 256 -> b < 256 -> c < 256 ->
  a / 4 < 64 /\ a mod 4 * 16 + b / 16 < 64
  /\ b mod 16 * 4 + c / 64 < 64 /\ c mod 64 < 64
  /\ a / 4 * 4 + (a mod 4 * 16 + b / 16) / 16 = a
  /\ (a mod 4 * 16 + b / 16) mod 16 * 16 + (b mod 16 * 4 + c / 64) / 4 = b
  /\ (b mod 16 * 4 + c / 64) mod 4 * 64 + c mod 64 = c)%N.
Proof.
  intros. repeat split; try (zify; Z.to_euclidean_division_equations; lia).
Qed.

Lemma base64_char_not_pad (n : N) :
  (n < 64)%N -> (base64_char n =? pad)%N = false.
Proof.
  intros Hn. destruct (N.eqb_spec (base64_char n) pad) as [E|]; [|reflexivity].
  pose proof (base64_index_char Hn) as H. rewrite E in H. discriminate.
Qed.

Lemma group_three (x y z : Byte.byte) :
  let a := Byte.to_N x in
  let b := Byte.to_N y in
  let c := Byte.to_N z in
  unbase64_group (base64_char (a / 4)) (base64_char (a mod 4 * 16 + b / 16))
    (base64_char (b mod 16 * 4 + c / 64)) (base64_char (c mod 64))
  = Some [x; y; z].
Proof.
  intros a b c.
  pose proof (Byte.to_N_bounded x). pose proof (Byte.to_N_bounded y).
  pose proof (Byte.to_N_bounded z).
  destruct (@group3 a b c) as (G0 & G1 & G2 & G3 & Ea & Eb & Ec);
    try (subst a b c; lia).
  unfold unbase64_group.
  rewrite !base64_index_char by assumption.
  rewrite !base64_char_not_pad by assumption. cbn [andb].
  rewrite Ea, Eb, Ec. subst a b c. now rewrite !byte_of_to_N.
Qed.

Lemma group_two (x y : Byte.byte) :
  let a := Byte.to_N x in
  let b := Byte.to_N y in
  unbase64_group (base64_char (a / 4)) (base64_char (a mod 4 * 16 + b / 16))
    (base64_char (b mod 16 * 4)) pad
  = Some [x; y].
Proof.
  intros a b.
  pose proof (Byte.to_N_bounded x). pose proof (Byte.to_N_bounded y).
  destruct (@group3 a b 0) as (G0 & G1 & G2 & G3 & Ea & Eb & Ec);
    try (subst a b; lia).
  change (0 / 64)%N with 0%N in *. rewrite N.add_0_r in *.
  unfold unbase64_group.
  rewrite !base64_index_char by assumption.
  rewrite !base64_char_not_pad by assumption. cbn [andb].
  rewrite N.eqb_refl, Ea, Eb. subst a b. now rewrite !byte_of_to_N.
Qed.

Lemma group_one (x : Byte.byte) :
  let a := Byte.to_N x in
  unbase64_group (base64_char (a / 4)) (base64_char (a mod 4 * 16)) pad pad
  = Some [x].
Proof.
  intros a. pose proof (Byte.to_N_bounded x).
  destruct (@group3 a 0 0) as (G0 & G1 & G2 & G3 & Ea & Eb & Ec);
    try (subst a; lia).
  change (0 / 16)%N with 0%N in *. rewrite N.add_0_r in *.
  unfold unbase64_group.
  rewrite !base64_index_char by assumption.
  rewrite N.eqb_refl. cbn [andb]. rewrite Ea. subst a.
  now rewrite byte_of_to_N.
Qed.

Lemma unbase64_base64 (bytes : list Byte.byte) :
  unbase64 (base64 bytes) = Some bytes.
Proof.
  assert (H : forall n bs,
             (length bs < n)%nat -> unbase64 (base64 bs) = Some bs).
  { induction n as [|n IH]; intros bs Hlen; [lia|].
    destruct bs as [|x [|y [|z rest]]].
    - reflexivity.
    - cbn [base64 unbase64]. now rewrite group_one.
    - cbn [base64 unbase64]. now rewrite group_two.
    - cbn [base64 unbase64]. rewrite group_three.
      rewrite IH by (simpl in Hlen; lia).
      destruct rest as [|r rest']; [reflexivity|].
      pose proof (Byte.to_N_bounded z).
      rewrite base64_char_not_pad
        by (zify; Z.to_euclidean_division_equations; lia).
      destruct (base64 (r :: rest')) eqn:E; [|reflexivity].
      destruct rest' as [|? [|? ?]]; discriminate. }
  apply (H (S (length bytes))). lia.
Qed.

Lemma quantize_range (x : Q) : (-32768 <= quantize x <= 32767)%Z.
Proof. unfold quantize. lia. Qed.

Lemma le_int16_le (v : Z) :
  (-32768 <= v <= 32767)%Z ->
  int16s (int16_le v) = [v].
Proof.
  intros Hv. unfold int16_le. cbn [int16s]. f_equal. unfold le_int16.
  set (u := Z.to_N (v mod 65536)).
  assert (Hu : (u < 65536)%N)
    by (subst u; zify; Z.to_euclidean_division_equations; lia).
  assert (Hlo : Byte.to_N (byte_of_N u) = (u mod 256)%N).
  { unfold byte_of_N.
    pose proof (Byte.to_of_N_option_map (u mod 256)) as H.
    destruct (Byte.of_N (u mod 256)) as [b|]; simpl in H.
    - destruct (N.leb (u mod 256) 255); congruence.
    - destruct (N.leb_spec (u mod 256) 255); [discriminate|].
      zify; Z.to_euclidean_division_equations; lia. }
  rewrite Hlo, to_N_byte_of by (zify; Z.to_euclidean_division_equations; lia).
  assert (E : (u mod 256 + 256 * (u / 256))%N = u)
    by (zify; Z.to_euclidean_division_equations; lia).
  rewrite E.
  destruct (Z.ltb_spec (Z.of_N u) 32768); subst u;
    zify; Z.to_euclidean_division_equations; lia.
Qed.

Lemma int16s_app2 (lo hi : Byte.byte) (rest : list Byte.byte) :
  int16s ([lo; hi] ++ rest) = le_int16 lo hi :: int16s rest.
Proof. reflexivity. Qed.

Lemma int16s_pcm16 (samples : list Q) :
  int16s (pcm16 samples) = map quantize samples.
Proof.
  unfold pcm16. induction samples as [|x samples IH]; [reflexivity|].
  cbn [flat_map map].
  pose proof (le_int16_le (quantize_range x)) as H.
  unfold int16_le in *. cbv zeta in *. rewrite int16s_app2, IH.
  cbn [int16s] in H. injection H as H. now rewrite H.
Qed.

Lemma pcm16_length (samples : list Q) :
  length (pcm16 samples) = (2 * length samples)%nat.
Proof.
  unfold pcm16. induction samples as [|x samples IH]; [reflexivity|].
  cbn [flat_map]. rewrite length_app, IH. simpl. lia.
Qed.

Lemma normalize_scale (v : Z) : normalize v == inject_Z v * (1 # 32768).
Proof. unfold normalize, Qeq. simpl. lia. Qed.

Lemma truncate_close (y : Q) :
  inject_Z (truncate y) - 1 < y /\ y < inject_Z (truncate y) + 1.
Proof.
  unfold truncate. destruct (Qle_bool 0 y).
  - pose proof (Qfloor_le y) as Hle. pose proof (Qlt_floor y) as Hlt.
    rewrite inject_Z_plus in Hlt. change (inject_Z 1) with 1 in Hlt.
    generalize dependent (inject_Z (Qfloor y)). intros f Hle Hlt.
    split; lra.
  - pose proof (Qle_ceiling y) as Hle. pose proof (Qceiling_lt y) as Hlt.
    unfold Z.sub in Hlt. rewrite inject_Z_plus in Hlt.
    change (inject_Z (- (1))) with (- (1)) in Hlt.
    generalize dependent (inject_Z (Qceiling y)). intros c Hle Hlt.
    split; lra.
Qed.

Lemma clamp_in_range (x : Q) : -1 <= x <= 1 -> clamp x == x.
Proof.
  intros [Hlo Hhi]. unfold clamp.
  rewrite (Q.min_r 1 x) by assumption. now apply Q.max_r.
Qed.

Lemma quantize_error (x : Q) :
  -1 <= x <= 1 -> Qabs (x - normalize (quantize x)) <= 1 # 32768.
Proof.
  intros Hx. pose proof (clamp_in_range Hx) as Hc.
  unfold quantize. set (y := clamp x * 32768).
  destruct (truncate_close y) as [Hlo Hhi].
  set (t := truncate y) in *.
  assert (Hy : y == x * 32768) by (subst y; now rewrite Hc).
  assert (Ht : (-32769 < t < 32769)%Z).
  { split; rewrite Zlt_Qlt.
    - change (inject_Z (-32769)) with (-32769).
      generalize dependent (inject_Z t). intros. lra.
    - change (inject_Z 32769) with 32769.
      generalize dependent (inject_Z t). intros. lra. }
  apply Qabs_Qle_condition. rewrite normalize_scale.
  destruct (Z.eq_dec t 32768) as [E|E].
  - rewrite E in *. change (Z.max (-32768) (Z.min 32767 32768)) with 32767%Z.
    change (inject_Z 32767) with 32767. change (inject_Z 32768) with 32768 in *.
    lra.
  - replace (Z.max (-32768) (Z.min 32767 t)) with t by lia.
    generalize dependent (inject_Z t). intros. lra.
Qed.

Lemma truncate_comp (x y : Q) : x == y -> truncate x = truncate y.
Proof.
  intros E. unfold truncate.
  rewrite (Qfloor_comp _ _ E), (Qceiling_comp _ _ E).
  replace (Qle_bool 0 y) with (Qle_bool 0 x); [reflexivity|].
  destruct (Qle_bool 0 x) eqn:Hx, (Qle_bool 0 y) eqn:Hy; try reflexivity.
  - apply Qle_bool_iff in Hx. rewrite E in Hx. apply Qle_bool_iff in Hx.
    congruence.
  - apply Qle_bool_iff in Hy. rewrite <- E in Hy. apply Qle_bool_iff in Hy.
    congruence.
Qed.

(** Input beyond full scale is clamped to the nearest end of the range. *)
Lemma quantize_clamps (x : Q) :
  (1 <= x -> quantize x = 32767%Z) /\ (x <= -1 -> quantize x = (-32768)%Z).
Proof.
  unfold quantize, clamp. split; intros Hx.
  - assert (E : Qmax (-1) (Qmin 1 x) * 32768 == 32768).
    { rewrite (Q.min_l 1 x) by assumption. rewrite Q.max_r by lra. lra. }
    now rewrite (truncate_comp E).
  - assert (E : Qmax (-1) (Qmin 1 x) * 32768 == -32768).
    { rewrite (Q.min_r 1 x) by lra. rewrite Q.max_l by assumption. lra. }
    now rewrite (truncate_comp E).
Qed.

(** ** One channel *)

Lemma nth_seq {A : Type} (d : A) (xs : list A) :
  map (fun i => nth i xs d) (seq 0 (length xs)) = xs.
Proof.
  induction xs as [|x xs IH]; [reflexivity|].
  cbn [length seq map nth]. f_equal.
  rewrite <- seq_shift, map_map. exact IH.
Qed.

Lemma decoded_mono (samples : list Q) (rate : positive) :
  channelData (decodeAudioData (pcm16 samples) rate 1)
  = [map normalize (map quantize samples)].
Proof.
  unfold decodeAudioData. cbn [channelData]. rewrite int16s_pcm16.
  change (Pos.to_nat 1) with 1%nat. cbn [seq map]. f_equal.
  unfold channel. rewrite pcm16_length.
  replace (2 * length samples / (2 * 1))%nat with (length samples)
    by (change (2 * 1)%nat with 2%nat;
        now rewrite Nat.mul_comm, Nat.div_mul).
  set (decoded := map normalize (map quantize samples)).
  replace (length samples) with (length decoded)
    by (subst decoded; now rewrite !length_map).
  etransitivity; [|apply (nth_seq 0 decoded)].
  apply map_ext. intros i. now rewrite Nat.mul_1_r, Nat.add_0_r.
Qed.

(** C8.  The codec round trip.  [encode] is a total function: it frames
    the samples, each quantized to a signed 16-bit integer and laid out low
    byte first, and clamps a sample beyond full scale to the nearest end of
    the range.  Unframing the block gives those bytes back, and for samples
    within [-1, 1] the decoded channel reconstructs each sample to within
    one quantization step, 1/32768. *)
Theorem pcm_roundtrip_within_quantization
    (samples : list Q) (rate playbackRate : positive) :
  let block := encode samples rate in
  chain (data block) decode = Some (pcm16 samples)
  /\ int16s (pcm16 samples) = map quantize samples
  /\ Forall (fun x => (-32768 <= quantize x <= 32767)%Z
                      /\ (1 <= x -> quantize x = 32767%Z)
                      /\ (x <= -1 -> quantize x = (-32768)%Z)) samples
  /\ (Forall (fun x => -1 <= x <= 1) samples ->
      exists decoded : list Q,
        channelData (decodeAudioData (pcm16 samples) playbackRate 1)
        = [decoded]
        /\ Forall2 (fun x y => Qabs (x - y) <= 1 # 32768) samples decoded).
Proof.
  cbv zeta. split; [|split; [|split]].
  - unfold encode, decode. cbn [data chain]. apply unbase64_base64.
  - apply int16s_pcm16.
  - apply Forall_forall. intros x _. split; [apply quantize_range|].
    apply quantize_clamps.
  - intros Hrange. exists (map normalize (map quantize samples)).
    split; [apply decoded_mono|].
    induction Hrange as [|x xs Hx Hxs IH]; cbn [map]; constructor.
    + now apply quantize_error.
    + exact IH.
Qed.

End AudioUtilsFacts.

(* ================================================================== *)
(** * Worked instances *)

Lemma playback_schedule_gapless_witness :
  outputAudioContextRef connectedState = Some (mkAudioContext 24000)
  /\ truthy sampleChunk = true
  /\ decode referenceHost sampleChunk = Some sampleBytes
  /\ decodeAudioData referenceHost sampleBytes (mkAudioContext 24000) 24000 1
     = Some sampleBuffer
  /\ (let s := connectedState in
      let when := Qmax (nextStartTimeRef s)
                    (currentTime referenceHost (instant s)) in
      let s' :=
        snd (onmessage referenceHost firstSession (audioChunk sampleChunk) s)
      in
      schedule (trace s')
      = schedule (trace s) ++ [mkSegment when (duration sampleBuffer)]
      /\ nextStartTimeRef s' = when + duration sampleBuffer).
Proof.
  refine (conj eq_refl (conj eq_refl (conj _ (conj eq_refl _)))).
  - vm_compute. reflexivity.
  - apply (proj1 (playback_schedule_gapless referenceHost firstSession)
             connectedState sampleChunk (mkAudioContext 24000) sampleBytes
             sampleBuffer).
    + reflexivity.
    + reflexivity.
    + vm_compute. reflexivity.
    + reflexivity.
Defined.

Lemma update_mindset_acknowledged_witness :
  last_answer_feedback plainMindset = None
  /\ reference_answer_for_question plainMindset = None
  /\ suggested_answer_tips plainMindset = None
  /\ (let message := toolCallEvent update_mindset plainMindset (js "call-1") in
      let s' :=
        snd (onmessage referenceHost firstSession message connectedState) in
      mindset s' = plainMindset
      /\ chatHistory s' = chatHistory connectedState).
Proof.
  refine (conj eq_refl (conj eq_refl (conj eq_refl _))).
  destruct (update_mindset_acknowledged referenceHost firstSession plainMindset
              (js "call-1") connectedState) as (_ & Hm & _ & Hh).
  split; [exact Hm|]. apply Hh; reflexivity.
Defined.

Lemma interrupted_discards_playback_witness :
  toolCall interruptedEvent = None
  /\ flag (serverContent interruptedEvent) interrupted = true
  /\ base64AudioOf interruptedEvent = Normal None
  /\ length (sourcesRef playingState) = 2%nat
  /\ (let result :=
        onmessage referenceHost firstSession interruptedEvent playingState in
      let s' := snd result in
      fst result = Returned
      /\ trace s'
         = trace playingState ++ map source_stop (sourcesRef playingState)
      /\ sourcesRef s' = []
      /\ nextStartTimeRef s' = 0
      /\ currentOutputTranscription s' = []
      /\ sessionStatus s' = listening).
Proof.
  refine (conj eq_refl (conj eq_refl (conj eq_refl (conj _ _)))).
  - vm_compute. reflexivity.
  - exact (interrupted_discards_playback referenceHost firstSession
             interruptedEvent playingState eq_refl eq_refl eq_refl).
Defined.

Lemma turnComplete_appends_turns_witness :
  toolCall turnCompleteEvent = None
  /\ flag (serverContent turnCompleteEvent) turnComplete = true
  /\ truthy (trim (currentInputTranscription talkingState)) = true
  /\ truthy (trim (currentOutputTranscription talkingState)) = true
  /\ (let s' :=
        snd (onmessage referenceHost firstSession turnCompleteEvent
               talkingState) in
      (exists t1 t2,
          chatHistory s'
          = chatHistory talkingState
              ++ [mkChatMessage user (currentInputTranscription talkingState)
                    t1 None;
                  mkChatMessage model
                    (currentOutputTranscription talkingState) t2 None])
      /\ currentInputTranscription s' = []
      /\ currentOutputTranscription s' = []).
Proof.
  refine (conj eq_refl (conj eq_refl (conj _ (conj _ _)))).
  - vm_compute. reflexivity.
  - vm_compute. reflexivity.
  - apply (proj1 (turnComplete_appends_turns referenceHost firstSession
                    turnCompleteEvent talkingState eq_refl eq_refl eq_refl
                    eq_refl)).
    + vm_compute. reflexivity.
    + vm_compute. reflexivity.
Defined.

Lemma referenceHost_clock (i j : nat) :
  (i <= j)%nat -> (Date_now referenceHost i <= Date_now referenceHost j)%Z.
Proof. unfold referenceHost. cbn [Date_now]. lia. Defined.

Lemma coaching_turns_in_fixed_order_witness :
  (forall i j : nat,
      (i <= j)%nat ->
      (Date_now referenceHost i <= Date_now referenceHost j)%Z)
  /\ (let message :=
        toolCallEvent update_mindset coachingMindset (js "call-2") in
      let s' :=
        snd (onmessage referenceHost firstSession message connectedState) in
      exists t1 t2 t3 : Z,
        (t1 <= t2 <= t3)%Z
        /\ chatHistory s'
           = chatHistory connectedState
               ++ coachingTurns coachingMindset t1 t2 t3
        /\ StronglySorted Z.lt
             (map timestamp (coachingTurns coachingMindset t1 t2 t3))).
Proof.
  split; [exact referenceHost_clock|].
  exact (coaching_turns_in_fixed_order referenceHost firstSession
           coachingMindset (js "call-2") connectedState referenceHost_clock).
Defined.

Lemma reconnect_replays_recent_dialogue_witness :
  API_KEY referenceHost = true
  /\ chatHistoryRef retryState <> []
  /\ length (replayedTurns (chatHistoryRef retryState)) = 10%nat
  /\ (exists older,
         filter isDialogueTurn (chatHistoryRef retryState)
         = older ++ replayedTurns (chatHistoryRef retryState)).
Proof.
  assert (Hne : chatHistoryRef retryState <> []) by discriminate.
  refine (conj eq_refl (conj Hne _)).
  destruct (reconnect_replays_recent_dialogue referenceHost referenceConfig
              retryState eq_refl Hne) as (_ & Hsuffix & Hlen & _).
  split; [|exact Hsuffix]. rewrite Hlen. vm_compute. reflexivity.
Defined.

Lemma interruption_clears_outbound_only_witness :
  toolCall interruptedEvent = None
  /\ flag (serverContent interruptedEvent) interrupted = true
  /\ (let s' :=
        snd (onmessage referenceHost firstSession interruptedEvent
               talkingState) in
      currentOutputTranscription s' = []
      /\ currentInputTranscription s'
         = currentInputTranscription talkingState).
Proof.
  refine (conj eq_refl (conj eq_refl _)).
  exact (interruption_clears_outbound_only referenceHost firstSession
           interruptedEvent talkingState eq_refl eq_refl eq_refl eq_refl
           eq_refl).
Defined.

Lemma pcm_roundtrip_within_quantization_witness :
  Forall (fun x => -1 <= x <= 1) sampleSamples
  /\ (exists decoded : list Q,
         channelData (AudioUtils.decodeAudioData sampleBytes 24000 1)
         = [decoded]
         /\ Forall2 (fun x y => Qabs (x - y) <= 1 # 32768)
              sampleSamples decoded).
Proof.
  assert (Hrange : Forall (fun x => -1 <= x <= 1) sampleSamples).
  { repeat constructor; discriminate. }
  split; [exact Hrange|].
  exact (proj2 (proj2 (proj2
           (AudioUtilsFacts.pcm_roundtrip_within_quantization
              sampleSamples 16000 24000))) Hrange).
Defined.

Lemma toggleMic_only_flips_flag_witness :
  reachable referenceHost referenceConfig connectedState
  /\ isMicOnRef (toggleMic connectedState) = false
  /\ connectionStatus (toggleMic connectedState) = connected
  /\ trace (toggleMic connectedState) = trace connectedState.
Proof.
  assert (Hreach : reachable referenceHost referenceConfig connectedState).
  { apply reach_open, reach_connect, reach_mount. }
  split; [exact Hreach|].
  destruct (@toggleMic_only_flips_flag referenceHost firstSession
              referenceConfig connectedState Hreach)
    as (Hflag & _ & _ & Hstatus & _ & Htrace & _).
  refine (conj Hflag (conj Hstatus Htrace)).
Defined.

Lemma handleSteering_sends_directive_witness :
  truthy (trim (steeringInput steeringState)) = true
  /\ activeSessionRef steeringState = Some firstSession
  /\ (let s' := handleSteering referenceHost steeringState in
      chatHistory s'
      = chatHistory steeringState
          ++ [mkChatMessage user (lit_directive ++ js "Ask about Java.")
                (Date_now referenceHost (instant steeringState)) None]
      /\ trace s'
         = trace steeringState
             ++ [sendRealtimeInput firstSession
                   (content
                      (mkContent (Some (js "user"))
                         (Some [mkPart
                                  (Some (js "[System Instruction: "
                                           ++ js "Ask about Java."
                                           ++ js "]"))
                                  None])))]).
Proof.
  assert (Htext : truthy (trim (steeringInput steeringState)) = true).
  { vm_compute. reflexivity. }
  refine (conj Htext (conj eq_refl _)).
  exact (proj2 (handleSteering_sends_directive referenceHost steeringState)
           firstSession Htext eq_refl).
Defined.

(** ** Where the code departs from the wording of the specification *)

(** C6, as worded, at a transcript of twenty-five turns: the replay holds
    the ten candidate and interviewer turns of the whole transcript, the
    first of them older than the most recent twenty turns, and none of the
    coaching turns among those twenty. *)
Lemma replay_is_not_the_last_twenty_turns :
  (20 < length history25)%nat
  /\ replayedTurns history25 <> slice_last 20 history25
  /\ finalSystemInstruction referenceConfig true history25
     <> systemInstruction referenceConfig ++ restoredHeader
          ++ replayOfLastTwenty history25.
Proof.
  split; [vm_compute; lia|]. split.
  - intros H. apply (f_equal (@length ChatMessage)) in H.
    vm_compute in H. discriminate.
  - intros H. apply (f_equal (@length N)) in H.
    vm_compute in H. discriminate.
Qed.

(** C7, as worded, after both sides have spoken: the interruption leaves the
    candidate's accumulator as it was. *)
Lemma interruption_keeps_candidate_buffer :
  let s' :=
    snd (onmessage referenceHost firstSession interruptedEvent talkingState)
  in
  currentInputTranscription s' = js "I led a team of five."
  /\ ~ (currentInputTranscription s' = []
        /\ currentOutputTranscription s' = []).
Proof.
  split.
  - vm_compute. reflexivity.
  - intros [H _]. vm_compute in H. discriminate.
Qed.

(* ================================================================== *)
(** * Further properties of the controller *)

(** What an effective steering command changes, field by field. *)
Lemma handleSteering_sends_directive_parts (host : Host) (s : State)
    (session : Session) :
  truthy (trim (steeringInput s)) = true ->
  activeSessionRef s = Some session ->
  let s' := handleSteering host s in
  chatHistory s'
  = chatHistory s
      ++ [mkChatMessage user (lit_directive ++ steeringInput s)
            (Date_now host (instant s)) None]
  /\ trace s'
     = trace s
         ++ [sendRealtimeInput session
               (content (steeringMessage (steeringInput s)))]
  /\ chatHistoryRef s' = chatHistoryRef s
  /\ allocated s' = allocated s.
Proof.
  intros Htext Hsession. unfold handleSteering.
  rewrite Htext, Hsession. unfold now, emit. cbn. repeat split.
Qed.

Section Sessions.

Variable host : Host.
Variable config : InterviewConfig.

(** ** Proving a property of every state *)

Lemma handleToolCall_preserves (P : State -> Prop) (session : Session)
    (calls : list FunctionCall) (s : State) :
  (forall call st, P st -> P (handleFunctionCall host session call st)) ->
  P s -> P (handleToolCall host session calls s).
Proof.
  intros Hcall. unfold handleToolCall. revert s.
  induction calls as [|call calls IH]; intros s Hs; cbn [fold_left]; auto.
Qed.

(** A property that each part of [onmessage] keeps is kept by
    [onmessage]. *)
Lemma onmessage_preserves (P : State -> Prop) :
  (forall session call st,
      P st -> P (handleFunctionCall host session call st)) ->
  (forall sc st, P st -> P (accumulate sc st)) ->
  (forall st, P st -> P (completeTurn host st)) ->
  (forall st, P st -> P (clampSchedule host st)) ->
  (forall audioBuffer st, P st -> P (startSource audioBuffer st)) ->
  (forall st, P st -> P (interrupt st)) ->
  forall session message s,
    P s -> P (snd (onmessage host session message s)).
Proof.
  intros Hcall Hacc Hturn Hclamp Hstart Hint session message s Hs.
  unfold onmessage. destruct (toolCall message) as [call|].
  - destruct (functionCalls call) as [calls|]; cbn [snd]; auto.
    apply handleToolCall_preserves; auto.
  - cbv zeta.
    assert (Hbefore : P (beforeAudio host message s)).
    { unfold beforeAudio. cbv zeta.
      destruct (flag (serverContent message) turnComplete); auto. }
    assert (Haudio : P (snd (audioOutput host message
                               (beforeAudio host message s)))).
    { revert Hbefore. generalize (beforeAudio host message s). intros st Hst.
      unfold audioOutput.
      destruct (base64AudioOf message) as [[payload|]|]; cbn [snd]; auto.
      destruct (outputAudioContextRef st) as [ctx|]; cbn [snd]; auto.
      destruct (truthy payload); cbn [snd]; auto.
      unfold playAudio. cbv zeta.
      destruct (chain (decode host payload) _); cbn [snd]; auto. }
    destruct (audioOutput host message (beforeAudio host message s))
      as [[|] st]; cbn [snd] in *; auto.
    destruct (flag (serverContent message) interrupted); auto.
Qed.

(** A property of the mounted component that every callback and command
    keeps holds in every reachable state. *)
Lemma reachable_preserves (P : State -> Prop) :
  P initialState ->
  (forall s s', P s -> transition host config s s' -> P s') ->
  forall s, reachable host config s -> P s.
Proof.
  intros Hinit Hstep s Hreach.
  induction Hreach; [assumption|..]; eapply Hstep; try eassumption;
    constructor.
Qed.

(** ** The transcript only grows *)

Lemma extends_refl (h : list ChatMessage) : extends h h.
Proof. exists []. now rewrite app_nil_r. Qed.

Lemma extends_trans (h1 h2 h3 : list ChatMessage) :
  extends h1 h2 -> extends h2 h3 -> extends h1 h3.
Proof.
  intros [a Ha] [b Hb]. exists (a ++ b). now rewrite Hb, Ha, app_assoc.
Qed.

Lemma completeTurn_extends (s : State) :
  extends (chatHistory s) (chatHistory (completeTurn host s)).
Proof.
  unfold completeTurn, now, extends. cbn.
  split_tests; cbn;
    solve [ exists []; now rewrite app_nil_r
          | eexists; rewrite <- ?app_assoc; reflexivity ].
Qed.

Lemma handleFunctionCall_extends (session : Session) (call : FunctionCall)
    (s : State) :
  extends (chatHistory s)
    (chatHistory (handleFunctionCall host session call s)).
Proof.
  unfold handleFunctionCall.
  destruct (strict_equal (name call) update_mindset); [|apply extends_refl].
  unfold emit. cbn [chatHistory set_trace]. rewrite injectCoaching_history.
  eexists. reflexivity.
Qed.

Lemma transition_extends (s s' : State) :
  transition host config s s' -> extends (chatHistory s) (chatHistory s').
Proof.
  intros Hstep. destruct Hstep.
  - unfold connectToGemini, emit. split_tests; cbn; apply extends_refl.
  - apply extends_refl.
  - apply extends_refl.
  - apply (onmessage_preserves
             (fun st => extends (chatHistory s) (chatHistory st))).
    + intros ? call st Hst. eapply extends_trans; [exact Hst|].
      apply handleFunctionCall_extends.
    + intros sc st Hst. unfold accumulate. split_tests; exact Hst.
    + intros st Hst. eapply extends_trans; [exact Hst|].
      apply completeTurn_extends.
    + intros st Hst. exact Hst.
    + intros b st Hst. exact Hst.
    + intros st Hst. unfold interrupt. rewrite stop_all_trace. exact Hst.
    + apply extends_refl.
  - unfold onended. split_tests; apply extends_refl.
  - unfold onaudioprocess, emit. split_tests; apply extends_refl.
  - apply extends_refl.
  - apply extends_refl.
  - unfold handleSteering, now, emit. split_tests; cbn;
      try apply extends_refl. eexists; reflexivity.
Qed.

(** X1.  The transcript is append-only: whatever callbacks and commands
    run, in whatever order, the transcript before them is a prefix of the
    transcript after them.  No turn is ever removed, reordered or
    rewritten. *)
Theorem transcript_is_append_only (s s' : State) :
  evolves host config s s' ->
  exists added, chatHistory s' = chatHistory s ++ added.
Proof.
  induction 1 as [s|s1 s2 s3 _ IH Hstep].
  - apply extends_refl.
  - eapply extends_trans; [exact IH|now apply transition_extends].
Qed.

(** ** The recorded copy of the transcript *)

Lemma lagsByDirectives_synced (s : State) :
  chatHistoryRef s = chatHistory s -> lagsByDirectives s.
Proof.
  intros H. exists []. rewrite H, app_nil_r. split; [reflexivity|constructor].
Qed.

Lemma handleFunctionCall_lags (session : Session) (call : FunctionCall)
    (s : State) :
  lagsByDirectives s ->
  lagsByDirectives (handleFunctionCall host session call s).
Proof.
  intros Hs. unfold handleFunctionCall.
  destruct (strict_equal (name call) update_mindset); [|exact Hs].
  apply lagsByDirectives_synced. unfold emit.
  cbn [chatHistory chatHistoryRef set_trace].
  now destruct (injectCoaching_frame host (args call)
                  (set_mindset (args call) s)) as (_ & _ & _ & _ & H).
Qed.

Lemma completeTurn_lags (s : State) :
  lagsByDirectives s -> lagsByDirectives (completeTurn host s).
Proof.
  intros Hs. unfold completeTurn, now. cbn.
  split_tests; try exact Hs; now apply lagsByDirectives_synced.
Qed.

(** X2.  [chatHistoryRef], the copy of the transcript that a reconnect
    replays, is always a prefix of the transcript, and the turns it lacks
    are steering directives only: [handleSteering] appends to the
    transcript without recording the turn in the ref, and the next
    transcript update by [onmessage] brings the two back in line. *)
Theorem recorded_transcript_lags_by_directives (s : State) :
  reachable host config s ->
  exists pending,
    chatHistory s = chatHistoryRef s ++ pending
    /\ Forall (fun m => role m = user
                        /\ exists input, text m = lit_directive ++ input)
         pending.
Proof.
  revert s. apply (reachable_preserves lagsByDirectives).
  - now apply lagsByDirectives_synced.
  - intros s s' Hs Hstep. destruct Hstep.
    + unfold connectToGemini, emit. split_tests; exact Hs.
    + exact Hs.
    + exact Hs.
    + apply (onmessage_preserves lagsByDirectives); auto.
      * intros; now apply handleFunctionCall_lags.
      * intros sc st Hst. unfold accumulate. split_tests; exact Hst.
      * intros; now apply completeTurn_lags.
      * intros st Hst. unfold interrupt. rewrite stop_all_trace. exact Hst.
    + unfold onended. split_tests; exact Hs.
    + unfold onaudioprocess, emit. split_tests; exact Hs.
    + exact Hs.
    + exact Hs.
    + unfold handleSteering, now, emit. split_tests; try exact Hs.
      destruct Hs as (pending & Hh & Hp).
      exists (pending
                ++ [mkChatMessage user (lit_directive ++ steeringInput s)
                      (Date_now host (instant s)) None]).
      cbn. rewrite Hh, <- app_assoc. split; [reflexivity|].
      apply Forall_app; split; [exact Hp|].
      constructor; [|constructor]. split; [reflexivity|].
      now exists (steeringInput s).
Qed.

(** X3.  A retry that follows a steering command replays the transcript
    without the directive: the instruction handed to the endpoint is the
    one a retry would have sent had the command never been given, although
    the transcript on display holds the directive. *)
Theorem retry_after_steering_omits_directive
    (session : Session) (s : State) :
  API_KEY host = true ->
  truthy (trim (steeringInput s)) = true ->
  activeSessionRef s = Some session ->
  let steered := handleSteering host s in
  chatHistory steered
  = chatHistory s
      ++ [mkChatMessage user (lit_directive ++ steeringInput s)
            (Date_now host (instant s)) None]
  /\ exists before,
       trace (connectToGemini host config true None steered)
       = before
           ++ [live_connect (allocated s)
                 (finalSystemInstruction config true (chatHistoryRef s))].
Proof.
  intros Hkey Htext Hsession steered.
  destruct (@handleSteering_sends_directive_parts host s session Htext
              Hsession) as (Hh & Ht & Href & Halloc).
  fold steered in Hh, Ht, Href, Halloc. split; [exact Hh|].
  destruct (@connectToGemini_retry host config steered Hkey)
    as (closes & Hc).
  exists (trace steered ++ closes).
  now rewrite Hc, Href, Halloc, app_assoc.
Qed.

(** ** Turn boundaries, continued *)

Variable sessionPromise : Session.

Lemma completeTurn_candidate_only (s : State) :
  truthy (trim (currentInputTranscription s)) = true ->
  truthy (trim (currentOutputTranscription s)) = false ->
  let s' := completeTurn host s in
  chatHistory s'
  = chatHistory s
      ++ [mkChatMessage user (currentInputTranscription s)
            (Date_now host (instant s)) None]
  /\ currentInputTranscription s' = []
  /\ currentOutputTranscription s' = [].
Proof.
  intros Hin Hout. unfold completeTurn, now. simpl.
  rewrite Hin, Hout. simpl. repeat split.
Qed.

Lemma completeTurn_interviewer_only (s : State) :
  truthy (trim (currentInputTranscription s)) = false ->
  truthy (trim (currentOutputTranscription s)) = true ->
  let s' := completeTurn host s in
  chatHistory s'
  = chatHistory s
      ++ [mkChatMessage model (currentOutputTranscription s)
            (Date_now host (instant s)) None]
  /\ currentInputTranscription s' = []
  /\ currentOutputTranscription s' = [].
Proof.
  intros Hin Hout. unfold completeTurn, now. simpl.
  rewrite Hin, Hout. simpl. repeat split.
Qed.

(** The state in which a bare turn boundary reaches the audio part. *)
Lemma beforeAudio_turnComplete (message : LiveServerMessage) (s : State) :
  flag (serverContent message) turnComplete = true ->
  chain (serverContent message) outputTranscription = None ->
  chain (serverContent message) inputTranscription = None ->
  beforeAudio host message s = completeTurn host s.
Proof.
  intros Hflag Hout Hin. unfold beforeAudio. cbv zeta.
  now rewrite Hflag, accumulate_idle.
Qed.

(** X4.  A turn boundary after only one side has spoken appends exactly
    one turn, for the side that spoke, and clears both accumulators, so
    whitespace the silent side had accumulated is discarded with it. *)
Theorem turnComplete_one_sided (message : LiveServerMessage) (s : State) :
  toolCall message = None ->
  flag (serverContent message) turnComplete = true ->
  chain (serverContent message) outputTranscription = None ->
  chain (serverContent message) inputTranscription = None ->
  let s' := snd (onmessage host sessionPromise message s) in
  (truthy (trim (currentInputTranscription s)) = true ->
   truthy (trim (currentOutputTranscription s)) = false ->
   chatHistory s'
   = chatHistory s
       ++ [mkChatMessage user (currentInputTranscription s)
             (Date_now host (instant s)) None]
   /\ currentInputTranscription s' = []
   /\ currentOutputTranscription s' = [])
  /\ (truthy (trim (currentInputTranscription s)) = false ->
      truthy (trim (currentOutputTranscription s)) = true ->
      chatHistory s'
      = chatHistory s
          ++ [mkChatMessage model (currentOutputTranscription s)
                (Date_now host (instant s)) None]
      /\ currentInputTranscription s' = []
      /\ currentOutputTranscription s' = []).
Proof.
  intros Htool Hflag Hout Hin s'.
  destruct (@onmessage_transcript host sessionPromise message s Htool)
    as (Hc & _ & Hi & Ho).
  fold s' in Hc, Hi, Ho.
  rewrite (beforeAudio_turnComplete message s Hflag Hout Hin) in *.
  split; intros Huser Hmodel.
  - destruct (completeTurn_candidate_only s Huser Hmodel) as (Hh & Hi' & Ho').
    rewrite Hc, Hi, Hh, Hi'. repeat split.
    destruct Ho as [Ho|Ho]; congruence.
  - destruct (completeTurn_interviewer_only s Huser Hmodel)
      as (Hh & Hi' & Ho').
    rewrite Hc, Hi, Hh, Hi'. repeat split.
    destruct Ho as [Ho|Ho]; congruence.
Qed.

(** X5.  A turn boundary while both accumulators hold nothing but
    whitespace appends no turn and clears neither accumulator: the
    whitespace that has accumulated stays in place. *)
Theorem turnComplete_keeps_blank_accumulators
    (message : LiveServerMessage) (s : State) :
  toolCall message = None ->
  flag (serverContent message) turnComplete = true ->
  flag (serverContent message) interrupted = false ->
  chain (serverContent message) outputTranscription = None ->
  chain (serverContent message) inputTranscription = None ->
  truthy (trim (currentInputTranscription s)) = false ->
  truthy (trim (currentOutputTranscription s)) = false ->
  let s' := snd (onmessage host sessionPromise message s) in
  currentInputTranscription s' = currentInputTranscription s
  /\ currentOutputTranscription s' = currentOutputTranscription s
  /\ chatHistory s' = chatHistory s.
Proof.
  intros Htool Hflag Hint Hout Hin Huser Hmodel s'. subst s'.
  unfold onmessage. rewrite Htool. cbv zeta.
  rewrite (beforeAudio_turnComplete message s Hflag Hout Hin), Hint.
  rewrite (@completeTurn_silent host s Huser Hmodel).
  pose proof (@audioOutput_transcript host message
                (set_sessionStatus listening s)) as Haudio.
  destruct (audioOutput host message (set_sessionStatus listening s))
    as [[|] st]; cbn [fst snd] in *;
    destruct Haudio as (H1 & _ & H3 & H4); repeat split; assumption.
Qed.

(** X6.  A message that carries an outbound and an inbound transcription
    fragment at once accumulates the outbound one only: the inbound
    fragment is dropped and the status is speaking. *)
Theorem outbound_fragment_takes_precedence
    (message : LiveServerMessage) (sc : LiveServerContent)
    (outbound inbound : Transcription) (s : State) :
  toolCall message = None ->
  serverContent message = Some sc ->
  outputTranscription sc = Some outbound ->
  inputTranscription sc = Some inbound ->
  turnComplete sc = false ->
  interrupted sc = false ->
  base64AudioOf message = Normal None ->
  let s' := snd (onmessage host sessionPromise message s) in
  currentOutputTranscription s'
  = currentOutputTranscription s ++ transcription_text outbound
  /\ currentInputTranscription s' = currentInputTranscription s
  /\ sessionStatus s' = speaking.
Proof.
  intros Htool Hsc Hout Hin Hturn Hint Haudio.
  rewrite (@onmessage_without_audio host sessionPromise message s Htool
             Haudio).
  unfold beforeAudio, accumulate. rewrite Hsc. cbn [flag chain].
  rewrite Hint, Hturn, Hout. cbn. repeat split.
Qed.

(** A run of outbound fragments accumulates their concatenation. *)
Lemma deliver_outbound_fragments (fragments : list JsString) (s : State) :
  let s' := deliver host sessionPromise
              (map outputTranscriptEvent fragments) s in
  currentOutputTranscription s'
  = currentOutputTranscription s ++ concat fragments
  /\ currentInputTranscription s' = currentInputTranscription s
  /\ chatHistory s' = chatHistory s
  /\ instant s' = instant s.
Proof.
  unfold deliver. revert s.
  induction fragments as [|fragment fragments IH]; intro s;
    cbn [map fold_left concat].
  - rewrite app_nil_r. repeat split.
  - change (snd (onmessage host sessionPromise
                   (outputTranscriptEvent fragment) s))
      with (set_sessionStatus speaking
              (set_currentOutputTranscription
                 (currentOutputTranscription s ++ fragment) s)).
    destruct (IH (set_sessionStatus speaking
                    (set_currentOutputTranscription
                       (currentOutputTranscription s ++ fragment) s)))
      as (Ho & Hi & Hc & Hn).
    rewrite Ho, Hi, Hc, Hn. cbn. rewrite <- app_assoc. repeat split.
Qed.

(** X7.  Outbound fragments followed by a turn boundary: when the candidate
    has said nothing, the transcript gains exactly one interviewer turn,
    whose text is what had accumulated followed by the fragments in arrival
    order, and both accumulators are empty afterwards. *)
Theorem fragments_flush_as_one_turn (fragments : list JsString) (s : State) :
  let spoken := currentOutputTranscription s ++ concat fragments in
  truthy (trim (currentInputTranscription s)) = false ->
  truthy (trim spoken) = true ->
  let s' := deliver host sessionPromise
              (map outputTranscriptEvent fragments ++ [turnCompleteEvent])
              s in
  chatHistory s'
  = chatHistory s
      ++ [mkChatMessage model spoken (Date_now host (instant s)) None]
  /\ currentInputTranscription s' = []
  /\ currentOutputTranscription s' = [].
Proof.
  intros spoken Hin Hout s'. subst s'. unfold deliver.
  rewrite fold_left_app. fold (deliver host sessionPromise
                                 (map outputTranscriptEvent fragments) s).
  destruct (deliver_outbound_fragments fragments s) as (Ho & Hi & Hc & Hn).
  set (s1 := deliver host sessionPromise
               (map outputTranscriptEvent fragments) s) in *.
  cbn [fold_left].
  change (snd (onmessage host sessionPromise turnCompleteEvent s1))
    with (completeTurn host s1).
  destruct (completeTurn_interviewer_only s1) as (Hh & Hi' & Ho').
  - now rewrite Hi.
  - now rewrite Ho.
  - rewrite Hh, Hc, Ho, Hn. repeat split; assumption.
Qed.

(** ** Tool calls, continued *)

Lemma stopped_app (xs ys : list Effect) :
  stopped (xs ++ ys) = stopped xs ++ stopped ys.
Proof.
  induction xs as [|[] xs IH]; cbn; rewrite ?IH; reflexivity.
Qed.

Lemma startTimes_app (xs ys : list Effect) :
  startTimes (xs ++ ys) = startTimes xs ++ startTimes ys.
Proof.
  induction xs as [|[] xs IH]; cbn; rewrite ?IH; reflexivity.
Qed.

Lemma stopped_acknowledgments (session : Session)
    (calls : list FunctionCall) :
  stopped
    (map (fun call => sendToolResponse session (acknowledgment call)) calls)
  = [].
Proof. induction calls; cbn; auto. Qed.

Lemma last_cons {A : Type} (a d : A) (xs : list A) :
  last (a :: xs) d = last xs a.
Proof.
  destruct xs as [|x xs]; [reflexivity|].
  change (last (a :: x :: xs) d) with (last (x :: xs) d).
  revert x. induction xs as [|y xs IH]; intro x; [reflexivity|].
  change (last (x :: y :: xs) d) with (last (y :: xs) d).
  change (last (x :: y :: xs) a) with (last (y :: xs) a).
  apply IH.
Qed.

Lemma handleToolCall_mindset (calls : list FunctionCall) (s : State) :
  mindset (handleToolCall host sessionPromise calls s)
  = last (map args (filter answered calls)) (mindset s).
Proof.
  unfold handleToolCall. revert s.
  induction calls as [|call calls IH]; intro s; cbn [fold_left filter];
    [reflexivity|].
  rewrite IH. unfold handleFunctionCall, answered.
  destruct (strict_equal (name call) update_mindset); [|reflexivity].
  cbn [map]. rewrite last_cons. f_equal. unfold emit. cbn [mindset set_trace].
  destruct (injectCoaching_frame host (args call)
              (set_mindset (args call) s)) as (_ & Hm & _).
  cbv zeta in Hm. rewrite Hm. reflexivity.
Qed.

(** X8.  A tool-call message with any number of function calls: each call
    named [update_mindset] is acknowledged with its own identifier, in the
    order of the calls, a call of any other name gets no response at all,
    and the mindset ends as the arguments of the last [update_mindset] call
    (it is unchanged when there is none). *)
Theorem every_update_mindset_call_is_acknowledged
    (calls : list FunctionCall) (sc : option LiveServerContent) (s : State) :
  let result := onmessage host sessionPromise (toolCallWith calls sc) s in
  fst result = Returned
  /\ trace (snd result)
     = trace s
         ++ map (fun call =>
                   sendToolResponse sessionPromise
                     [mkFunctionResponse (id call) (name call) (js "ok")])
              (filter (fun call => strict_equal (name call) update_mindset)
                 calls)
  /\ mindset (snd result)
     = last (map args
               (filter (fun call => strict_equal (name call) update_mindset)
                  calls))
         (mindset s).
Proof.
  unfold onmessage, toolCallWith. cbn [toolCall functionCalls fst snd].
  split; [reflexivity|]. split.
  - apply (@handleToolCall_trace host sessionPromise calls s).
  - apply handleToolCall_mindset.
Qed.

Lemma handleFunctionCall_conversation (session : Session)
    (call : FunctionCall) (s : State) :
  conversationFields (handleFunctionCall host session call s)
  = conversationFields s.
Proof.
  unfold handleFunctionCall, injectCoaching, now, emit, conversationFields.
  split_tests; reflexivity.
Qed.

(** X9.  A message that carries a tool call is handled as a tool call
    only: whatever server content comes with it (fragments, a turn
    boundary, audio, an interruption), the accumulators, the session
    status, the scheduling clock and the pending sources are left as they
    were, and no source is started or stopped. *)
Theorem tool_call_message_ignores_server_content
    (calls : list FunctionCall) (sc : option LiveServerContent) (s : State) :
  let s' := snd (onmessage host sessionPromise (toolCallWith calls sc) s) in
  currentInputTranscription s' = currentInputTranscription s
  /\ currentOutputTranscription s' = currentOutputTranscription s
  /\ sessionStatus s' = sessionStatus s
  /\ nextStartTimeRef s' = nextStartTimeRef s
  /\ sourcesRef s' = sourcesRef s
  /\ schedule (trace s') = schedule (trace s)
  /\ stopped (trace s') = stopped (trace s).
Proof.
  unfold onmessage, toolCallWith. cbn [toolCall functionCalls snd].
  assert (Hfields : conversationFields
                      (handleToolCall host sessionPromise calls s)
                    = conversationFields s).
  { apply (handleToolCall_preserves
             (fun st => conversationFields st = conversationFields s));
      [|reflexivity].
    intros call st Hst. now rewrite handleFunctionCall_conversation. }
  unfold conversationFields in Hfields. injection Hfields as H1 H2 H3 H4 H5.
  rewrite (@handleToolCall_trace host sessionPromise calls s).
  repeat split; try assumption.
  - rewrite schedule_app, schedule_acknowledgments. apply app_nil_r.
  - rewrite stopped_app, stopped_acknowledgments. apply app_nil_r.
Qed.

(** ** Audio sources *)

Lemma startedNodes_app (xs ys : list Effect) :
  startedNodes (xs ++ ys) = startedNodes xs ++ startedNodes ys.
Proof.
  induction xs as [|[] xs IH]; cbn; rewrite ?IH; reflexivity.
Qed.

Lemma quiet_starts_nothing (added : list Effect) :
  forallb isQuiet added = true ->
  startTimes added = [] /\ startedNodes added = []
  /\ forall started, stopsFollowStarts started added.
Proof.
  induction added as [|[] added IH]; cbn; intros H;
    try discriminate; auto.
Qed.

Lemma stopsFollowStarts_incl (started started' : list nat)
    (tr : list Effect) :
  incl started started' ->
  stopsFollowStarts started tr -> stopsFollowStarts started' tr.
Proof.
  revert started started'.
  induction tr as [|[] tr IH]; cbn; intros started started' Hincl H;
    try (eapply IH; eassumption); auto.
  - eapply IH; [|exact H]. intros n [Hn|Hn]; [now left|right; auto].
  - destruct H as [Hin H]. split; [auto|eapply IH; eassumption].
Qed.

Lemma stopsFollowStarts_app (started : list nat) (xs ys : list Effect) :
  stopsFollowStarts started xs ->
  stopsFollowStarts (startedNodes xs ++ started) ys ->
  stopsFollowStarts started (xs ++ ys).
Proof.
  revert started.
  induction xs as [|[] xs IH]; cbn; intros started Hxs Hys;
    try (apply IH; assumption); auto.
  - apply IH; [assumption|].
    eapply stopsFollowStarts_incl; [|exact Hys].
    intros n [Hn|Hn]; apply in_or_app.
    + right. now left.
    + apply in_app_or in Hn as [Hn|Hn]; [now left|right; now right].
  - destruct Hxs as [Hin Hxs]. split; [assumption|now apply IH].
Qed.

Lemma stopsFollowStarts_stops (started : list nat)
    (sources : list AudioBufferSourceNode) :
  Forall (fun source => In (node source) started) sources ->
  stopsFollowStarts started (map source_stop sources).
Proof.
  induction 1; cbn; auto.
Qed.

(** A step that adds only quiet effects and leaves the audio fields alone
    keeps the invariant. *)
Lemma audioInvariant_quiet (s s' : State) (added : list Effect) :
  trace s' = trace s ++ added ->
  forallb isQuiet added = true ->
  sourcesRef s' = sourcesRef s ->
  nextStartTimeRef s' = nextStartTimeRef s ->
  (allocated s <= allocated s')%nat ->
  audioInvariant s -> audioInvariant s'.
Proof.
  intros Ht Hq Hs Hn Ha (H1 & H2 & H3 & H4).
  destruct (quiet_starts_nothing added Hq) as (Q1 & Q2 & Q3).
  unfold audioInvariant.
  rewrite Ht, Hs, Hn, startTimes_app, startedNodes_app, Q1, Q2, !app_nil_r.
  repeat split; auto.
  - apply stopsFollowStarts_app; auto.
  - eapply Forall_impl; [|exact H4]. cbn. intros source [? ?]. split; auto.
    lia.
Qed.

Ltac quiet_step H :=
  (eapply audioInvariant_quiet with (added := []);
   [now rewrite app_nil_r|reflexivity|reflexivity|reflexivity
   |cbn; lia|exact H])
  || (eapply audioInvariant_quiet;
      [cbn; rewrite <- ?app_assoc; reflexivity|reflexivity|reflexivity
      |reflexivity|cbn; lia|exact H]).

Lemma clampSchedule_audioInvariant (s : State) :
  audioInvariant s -> audioInvariant (clampSchedule host s).
Proof.
  intros (H1 & H2 & H3 & H4). unfold clampSchedule, outputClock.
  unfold audioInvariant. cbn. repeat split; auto.
  eapply Qle_trans; [exact H1|apply Q.le_max_l].
Qed.

Lemma startSource_audioInvariant (audioBuffer : AudioBuffer) (s : State) :
  audioInvariant s -> audioInvariant (startSource audioBuffer s).
Proof.
  intros (H1 & H2 & H3 & H4). unfold startSource, emit, audioInvariant.
  cbn. rewrite startTimes_app, startedNodes_app. cbn. repeat split.
  - rewrite <- (Qplus_0_r 0). apply Qplus_le_compat; [exact H1|].
    apply duration_nonneg.
  - apply Forall_app. split; [exact H2|]. constructor; [exact H1|constructor].
  - apply stopsFollowStarts_app; [exact H3|]. cbn. exact I.
  - assert (Hfresh : existsb (same_node (mkSource (allocated s) audioBuffer))
                       (sourcesRef s) = false).
    { apply not_true_is_false. intros Hex.
      apply existsb_exists in Hex as (x & Hx & Hsame).
      rewrite Forall_forall in H4. destruct (H4 x Hx) as [_ Hlt].
      unfold same_node in Hsame. cbn in Hsame.
      apply Nat.eqb_eq in Hsame. lia. }
    unfold Set_add. rewrite Hfresh. apply Forall_app. split.
    + eapply Forall_impl; [|exact H4]. cbn. intros source [Hin Hlt].
      split; [apply in_or_app; now left|lia].
    + constructor; [|constructor]. cbn. split; [|lia].
      apply in_or_app. right. now left.
Qed.

Lemma stops_start_nothing (sources : list AudioBufferSourceNode) :
  startTimes (map source_stop sources) = []
  /\ startedNodes (map source_stop sources) = [].
Proof. induction sources; cbn; auto. Qed.

Lemma interrupt_audioInvariant (s : State) :
  audioInvariant s -> audioInvariant (interrupt s).
Proof.
  intros (H1 & H2 & H3 & H4). unfold interrupt. rewrite stop_all_trace.
  unfold audioInvariant. cbn.
  destruct (stops_start_nothing (sourcesRef s)) as [Q1 Q2].
  rewrite startTimes_app, Q1, app_nil_r. repeat split; auto.
  - apply Qle_refl.
  - apply stopsFollowStarts_app; [exact H3|].
    apply stopsFollowStarts_stops. rewrite app_nil_r.
    eapply Forall_impl; [|exact H4]. cbn. tauto.
Qed.

Lemma audioInvariant_reachable (s : State) :
  reachable host config s -> audioInvariant s.
Proof.
  revert s. apply (reachable_preserves audioInvariant).
  - unfold audioInvariant. cbn. repeat split; try constructor.
    apply Qle_refl.
  - intros s s' Hs Hstep. destruct Hstep.
    + unfold connectToGemini, emit. split_tests; quiet_step Hs.
    + quiet_step Hs.
    + quiet_step Hs.
    + apply (onmessage_preserves audioInvariant); auto.
      * intros session' call st Hst.
        unfold handleFunctionCall, injectCoaching, now, emit.
        split_tests; quiet_step Hst.
      * intros sc st Hst. unfold accumulate. split_tests; quiet_step Hst.
      * intros st Hst. unfold completeTurn, now.
        split_tests; quiet_step Hst.
      * apply clampSchedule_audioInvariant.
      * apply startSource_audioInvariant.
      * apply interrupt_audioInvariant.
    + destruct Hs as (H1 & H2 & H3 & H4).
      assert (Hkeep : Forall
                        (fun source0 =>
                           In (node source0) (startedNodes (trace s))
                           /\ (node source0 < allocated s)%nat)
                        (Set_delete source (sourcesRef s))).
      { unfold Set_delete. apply Forall_forall. intros x Hx.
        apply filter_In in Hx as [Hx _].
        rewrite Forall_forall in H4. now apply H4. }
      unfold onended, audioInvariant. cbn.
      destruct (Set_delete source (sourcesRef s)); cbn; repeat split; auto.
    + unfold onaudioprocess, emit. split_tests; quiet_step Hs.
    + quiet_step Hs.
    + quiet_step Hs.
    + unfold handleSteering, now, emit. split_tests; quiet_step Hs.
Qed.

(** X10.  In every reachable state the scheduling clock is non-negative,
    and every source the component has started was started at a
    non-negative time: [source.start] is never handed a negative time,
    whatever the output clock reads. *)
Theorem sources_start_at_nonnegative_times (s : State) :
  reachable host config s ->
  0 <= nextStartTimeRef s
  /\ Forall (fun when => 0 <= when) (startTimes (trace s)).
Proof.
  intros Hreach.
  destruct (audioInvariant_reachable Hreach) as (H1 & H2 & _).
  split; assumption.
Qed.

(** X11.  The component only ever stops sources it has started: in the
    trace of every reachable state each [source.stop] comes after the
    [source.start] of the same source, and every pending source has been
    started. *)
Theorem sources_are_stopped_after_they_start (s : State) :
  reachable host config s ->
  stopsFollowStarts [] (trace s)
  /\ Forall (fun source => In (node source) (startedNodes (trace s)))
       (sourcesRef s).
Proof.
  intros Hreach.
  destruct (audioInvariant_reachable Hreach) as (_ & _ & H3 & H4).
  split; [assumption|].
  eapply Forall_impl; [|exact H4]. cbn. tauto.
Qed.

Lemma Set_delete_added (source : AudioBufferSourceNode)
    (sources : list AudioBufferSourceNode) :
  Forall (fun x => (node x < node source)%nat) sources ->
  Set_add source sources = sources ++ [source]
  /\ Set_delete source (sources ++ [source]) = sources.
Proof.
  intros Hfresh. unfold Set_add, Set_delete, same_node.
  assert (Hnone : existsb (fun b => Nat.eqb (node source) (node b)) sources
                  = false).
  { apply not_true_is_false. intros Hex.
    apply existsb_exists in Hex as (x & Hx & Hsame).
    rewrite Forall_forall in Hfresh. specialize (Hfresh x Hx).
    apply Nat.eqb_eq in Hsame. lia. }
  rewrite Hnone. split; [reflexivity|].
  rewrite filter_app. cbn. rewrite Nat.eqb_refl. cbn. rewrite app_nil_r.
  apply filter_all. apply forallb_forall. intros x Hx.
  rewrite Forall_forall in Hfresh. specialize (Hfresh x Hx).
  apply negb_true_iff, Nat.eqb_neq. lia.
Qed.

(** X12.  An audio chunk and the end of its playback.  In a reachable
    state, a decodable chunk adds one source to the pending set and sets
    the status to speaking; when that source ends the pending set is as it
    was before the chunk, and the status returns to listening exactly when
    nothing else is pending. *)
Theorem chunk_plays_then_ends
    (s : State) (payload : JsString) (ctx : AudioContext)
    (bytes : list Byte.byte) (audioBuffer : AudioBuffer) :
  reachable host config s ->
  outputAudioContextRef s = Some ctx ->
  truthy payload = true ->
  decode host payload = Some bytes ->
  decodeAudioData host bytes ctx 24000 1 = Some audioBuffer ->
  let source := mkSource (allocated s) audioBuffer in
  let playing := snd (onmessage host sessionPromise (audioChunk payload) s) in
  sourcesRef playing = sourcesRef s ++ [source]
  /\ sessionStatus playing = speaking
  /\ sourcesRef (onended source playing) = sourcesRef s
  /\ sessionStatus (onended source playing)
     = match sourcesRef s with
       | [] => listening
       | _ :: _ => speaking
       end.
Proof.
  intros Hreach Hctx Hpayload Hdecode Hbuffer source playing.
  destruct (audioInvariant_reachable Hreach) as (_ & _ & _ & Hfresh).
  assert (Hlt : Forall (fun x => (node x < node source)%nat) (sourcesRef s)).
  { eapply Forall_impl; [|exact Hfresh]. cbn. tauto. }
  destruct (Set_delete_added source Hlt) as [Hadd Hdel].
  assert (Hplay : sourcesRef playing = sourcesRef s ++ [source]
                  /\ sessionStatus playing = speaking).
  { subst playing. rewrite onmessage_audioChunk, Hctx, Hpayload.
    destruct (@playAudio_decoded host payload ctx bytes audioBuffer s
                Hdecode Hbuffer) as (Hout & _ & _ & Hs & Hst).
    destruct (playAudio host payload ctx s) as [outcome s1].
    cbn [fst snd] in *. subst outcome. cbn [snd].
    fold source in Hs. rewrite Hs, Hadd. split; [reflexivity|exact Hst]. }
  destruct Hplay as [Hs Hst]. repeat split; try assumption.
  - unfold onended. cbn. rewrite Hs, Hdel.
    destruct (sourcesRef s); reflexivity.
  - unfold onended. cbn. rewrite Hs, Hdel.
    destruct (sourcesRef s); cbn; [reflexivity|exact Hst].
Qed.

Lemma onended_idle (source : AudioBufferSourceNode) (s : State) :
  sourcesRef s = [] -> sessionStatus s = listening -> onended source s = s.
Proof.
  intros Hs Hst. destruct s. cbn in *. subst. reflexivity.
Qed.

(** X13.  After an interruption, the [ended] events of the sources it
    stopped (of any sources at all) change nothing: the pending set is
    already empty and the status already listening. *)
Theorem ended_after_interruption_changes_nothing
    (sources : list AudioBufferSourceNode) (s : State) :
  endAll sources (interrupt s) = interrupt s.
Proof.
  destruct (interrupt_effect s) as (_ & Hs & _ & _ & Hst & _).
  revert Hs Hst. generalize (interrupt s). intros st Hs Hst.
  unfold endAll. induction sources as [|source sources IH]; cbn [fold_left];
    [reflexivity|].
  now rewrite onended_idle.
Qed.

(** X14.  After an interruption playback restarts from the output clock:
    the first decodable chunk that follows is started at the reading of
    the clock, however far ahead the abandoned schedule had run, and the
    scheduling clock is then that reading plus the duration of the
    buffer. *)
Theorem playback_restarts_at_the_clock_after_interruption
    (s : State) (payload : JsString) (ctx : AudioContext)
    (bytes : list Byte.byte) (audioBuffer : AudioBuffer) :
  outputAudioContextRef s = Some ctx ->
  truthy payload = true ->
  decode host payload = Some bytes ->
  decodeAudioData host bytes ctx 24000 1 = Some audioBuffer ->
  0 <= currentTime host (instant s) ->
  let s' := deliver host sessionPromise
              [interruptedEvent; audioChunk payload] s in
  exists when,
    startTimes (trace s') = startTimes (trace s) ++ [when]
    /\ when == currentTime host (instant s)
    /\ nextStartTimeRef s'
       == currentTime host (instant s) + duration audioBuffer.
Proof.
  intros Hctx Hpayload Hdecode Hbuffer Hclock s'. subst s'.
  unfold deliver. cbn [fold_left].
  change (snd (onmessage host sessionPromise interruptedEvent s))
    with (interrupt s).
  destruct (interrupt_effect s) as (Ht & _ & Hn & _).
  assert (Hctx' : outputAudioContextRef (interrupt s) = Some ctx).
  { unfold interrupt. rewrite stop_all_trace. exact Hctx. }
  assert (Hinstant : instant (interrupt s) = instant s).
  { unfold interrupt. rewrite stop_all_trace. reflexivity. }
  rewrite onmessage_audioChunk, Hctx', Hpayload.
  destruct (@playAudio_decoded host payload ctx bytes audioBuffer
              (interrupt s) Hdecode Hbuffer) as (Hout & Ht' & Hn' & _).
  destruct (playAudio host payload ctx (interrupt s)) as [outcome s1].
  cbn [fst snd] in *. subst outcome. cbn [snd].
  rewrite Hn, Hinstant in *.
  exists (Qmax 0 (currentTime host (instant s))).
  assert (Hmax : Qmax 0 (currentTime host (instant s))
                 == currentTime host (instant s)) by now apply Q.max_r.
  repeat split.
  - rewrite Ht', Ht, !startTimes_app.
    destruct (stops_start_nothing (sourcesRef s)) as [Q1 _].
    rewrite Q1, app_nil_r. reflexivity.
  - exact Hmax.
  - rewrite Hn', Hmax. reflexivity.
Qed.

(** X15.  An exception in the audio part ends the callback before the
    interruption branch.  A message flagged interrupted whose model turn
    has no parts, or whose payload the decoder rejects, stops no source and
    leaves the pending set as it was; in the second case the scheduling
    clock has been brought up to the output clock and the status is
    speaking. *)
Theorem exception_in_audio_part_skips_interruption
    (message : LiveServerMessage) (sc : LiveServerContent) (turn : Content)
    (s : State) :
  toolCall message = None ->
  serverContent message = Some sc ->
  interrupted sc = true ->
  modelTurn sc = Some turn ->
  let result := onmessage host sessionPromise message s in
  (parts turn = None ->
   fst result = Threw
   /\ trace (snd result) = trace s
   /\ sourcesRef (snd result) = sourcesRef s
   /\ nextStartTimeRef (snd result) = nextStartTimeRef s)
  /\ (forall (part : Part) (rest : list Part) (blob : Blob)
             (payload : JsString) (ctx : AudioContext),
         parts turn = Some (part :: rest) ->
         inlineData part = Some blob ->
         data blob = Some payload ->
         truthy payload = true ->
         outputAudioContextRef s = Some ctx ->
         chain (decode host payload)
           (fun bytes => decodeAudioData host bytes ctx 24000 1) = None ->
         fst result = Threw
         /\ trace (snd result) = trace s
         /\ sourcesRef (snd result) = sourcesRef s
         /\ sessionStatus (snd result) = speaking
         /\ nextStartTimeRef (snd result)
            = Qmax (nextStartTimeRef s)
                (currentTime host (instant (beforeAudio host message s)))).
Proof.
  intros Htool Hsc Hint Hturn result. subst result.
  destruct (@beforeAudio_audio host message s) as (Ht & Hs & Hn & Hc).
  unfold onmessage. rewrite Htool. cbv zeta. unfold audioOutput, base64AudioOf.
  rewrite Hsc. cbn [chain]. rewrite Hturn. split.
  - intros Hparts. rewrite Hparts. cbn [fst snd]. repeat split; assumption.
  - intros part rest blob payload ctx Hparts Hinline Hdata Hpayload Hctx
      Hdecode.
    rewrite Hparts. cbn [hd_error chain]. rewrite Hinline. cbn [chain].
    rewrite Hdata, Hc, Hctx, Hpayload. unfold playAudio. cbv zeta.
    rewrite Hdecode. cbn [fst snd]. unfold clampSchedule, outputClock. cbn.
    rewrite Ht, Hs, Hn. repeat split.
Qed.

(** ** The microphone and the audio-frame tap, continued *)

(** X16.  While the microphone is off, audio frames are dropped whole: a
    run of any number of frames leaves the state as it was, so nothing is
    sent, the volume display keeps its last value and the status is not
    touched. *)
Theorem muted_frames_are_dropped
    (seen : SessionStatus) (inputFrames : list (list Q)) (s : State) :
  isMicOnRef s = false ->
  captureFrames host sessionPromise seen inputFrames s = s.
Proof.
  intros Hoff. unfold captureFrames.
  induction inputFrames as [|inputData inputFrames IH]; cbn [fold_left];
    [reflexivity|].
  unfold onaudioprocess at 2. rewrite Hoff. exact IH.
Qed.

(** X17.  Toggling the microphone twice restores the state exactly, in
    every reachable state. *)
Theorem toggleMic_twice_restores (s : State) :
  reachable host config s -> toggleMic (toggleMic s) = s.
Proof.
  intros Hreach. pose proof (mic_flag_in_sync Hreach) as Hsync.
  destruct s. unfold toggleMic. cbn in *. subst.
  now rewrite negb_involutive.
Qed.

Lemma sumAbs_from (inputData : list Q) (start : Q) :
  0 <= start ->
  0 <= fold_left (fun acc val => acc + Qabs val) inputData start.
Proof.
  revert start. induction inputData as [|val inputData IH];
    intros start Hstart; cbn [fold_left]; [exact Hstart|].
  apply IH. rewrite <- (Qplus_0_r 0).
  apply Qplus_le_compat; [exact Hstart|apply Qabs_nonneg].
Qed.

(** X18.  With the microphone on, the volume the tap reports for a frame
    that holds at least one sample lies between 0 and 100, whatever the
    samples are. *)
Theorem audioVolume_is_a_percentage
    (seen : SessionStatus) (inputData : list Q) (s : State) :
  isMicOnRef s = true ->
  inputData <> [] ->
  let s' := onaudioprocess host sessionPromise seen inputData s in
  0 <= audioVolume s' /\ audioVolume s' <= 100.
Proof.
  intros Hon _. unfold onaudioprocess, emit. rewrite Hon. cbn [negb].
  set (volume := sumAbs inputData
                 / inject_Z (Z.of_nat (length inputData))).
  assert (Hvolume : 0 <= volume).
  { subst volume. unfold Qdiv. apply Qmult_le_0_compat.
    - apply sumAbs_from, Qle_refl.
    - apply Qinv_le_0_compat. unfold Qle. cbn. lia. }
  assert (Hbounds : 0 <= Qmin (volume * 500) 100
                    /\ Qmin (volume * 500) 100 <= 100).
  { split; [|apply Q.le_min_r].
    apply Q.min_glb; [|discriminate].
    apply Qmult_le_0_compat; [exact Hvolume|discriminate]. }
  split_tests; cbn; exact Hbounds.
Qed.

(** ** Steering, continued *)


(** ** Connecting, continued *)


(** X21.  A connection attempt that succeeds closes the session held so
    far before it opens the new one, opens exactly one session and holds
    its handle.  On a first connect, and on a retry before any transcript
    was recorded, the endpoint gets the configured system instruction
    verbatim.  The transcript, the scheduling clock and the pending sources
    survive the reconnect. *)
Theorem connectToGemini_replaces_the_session (isRetry : bool) (s : State) :
  API_KEY host = true ->
  let s' := connectToGemini host config isRetry None s in
  let instruction := finalSystemInstruction config isRetry (chatHistoryRef s) in
  trace s'
  = trace s
      ++ match activeSessionRef s with
         | Some session => [session_close session]
         | None => []
         end
      ++ [live_connect (allocated s) instruction]
  /\ activeSessionRef s' = Some (allocated s)
  /\ connectionStatus s' = (if isRetry then reconnecting else connecting)
  /\ errorDetails s' = None
  /\ (isRetry = false \/ chatHistoryRef s = [] ->
      instruction = systemInstruction config)
  /\ chatHistory s' = chatHistory s
  /\ nextStartTimeRef s' = nextStartTimeRef s
  /\ sourcesRef s' = sourcesRef s.
Proof.
  intros Hkey. unfold connectToGemini, emit. rewrite Hkey. cbn [negb].
  destruct (activeSessionRef s) as [session|] eqn:Hsession; cbn;
    destruct (outputAudioContextRef s); cbn; rewrite <- ?app_assoc;
    repeat split; auto;
    intros [Hfirst|Hempty]; unfold finalSystemInstruction;
    rewrite ?Hfirst, ?Hempty; cbn; rewrite ?andb_false_r; reflexivity.
Qed.

End Sessions.

(* ================================================================== *)
(** * Mood display, the application shell and the generation service *)

Lemma JsString_eqb_eq (a b : JsString) : JsString_eqb a b = true <-> a = b.
Proof.
  unfold JsString_eqb. destruct (list_eq_dec N.eq_dec a b); split;
    congruence.
Qed.

Lemma JsString_eqb_neq (a b : JsString) : a <> b -> JsString_eqb a b = false.
Proof.
  intros Hne. destruct (JsString_eqb a b) eqn:E; [|reflexivity].
  apply JsString_eqb_eq in E. contradiction.
Qed.

(** X22.  The two mood functions recognise the same five moods.  Any other
    mood string, [Neutral] included, gets the neutral face and the default
    filter and border; each of the five gets a face and a border colour of
    its own, different from the fallback and from those of the other four. *)
Theorem mood_display_falls_back_to_neutral (mood : JsString) :
  (~ In mood recognisedMoods ->
   getMoodEmoji mood = emoji_neutral
   /\ getMoodStyles mood
      = mkMoodStyles (js "contrast(100%) saturate(100%) brightness(100%)")
          (js "rgba(255, 255, 255, 0.8)")
          (js "filter 0.5s ease, border-color 0.5s ease"))
  /\ (In mood recognisedMoods ->
      getMoodEmoji mood <> emoji_neutral
      /\ borderColor (getMoodStyles mood) <> js "rgba(255, 255, 255, 0.8)"
      /\ forall other,
           In other recognisedMoods ->
           getMoodEmoji other = getMoodEmoji mood
           \/ borderColor (getMoodStyles other)
              = borderColor (getMoodStyles mood) ->
           other = mood).
Proof.
  split.
  - intros Hnot. unfold recognisedMoods in Hnot. cbn [In] in Hnot.
    unfold getMoodEmoji, getMoodStyles.
    rewrite !JsString_eqb_neq by (intros E; apply Hnot; rewrite E; tauto).
    split; reflexivity.
  - intros Hin. unfold recognisedMoods in *. cbn [In] in Hin.
    repeat destruct Hin as [Hin|Hin]; try contradiction; subst mood;
      (split; [vm_compute; discriminate|]);
      (split; [vm_compute; discriminate|]);
      intros other Hother Hsame; cbn [In] in Hother;
      repeat destruct Hother as [Hother|Hother]; try contradiction;
      subst other; try reflexivity;
      exfalso; destruct Hsame as [Hsame|Hsame];
      vm_compute in Hsame; discriminate.
Qed.

(** X23.  The application shell shows exactly one screen at any time: the
    setup screen with no configuration held, or the live session with the
    configuration it was started with.  The summary state is never
    entered, and the live state never lacks its configuration. *)
Theorem app_shows_exactly_one_screen (a : App) :
  app_reachable a ->
  (appState a = SETUP /\ app_config a = None /\ render a = [SetupScreen])
  \/ (exists config,
         appState a = LIVE /\ app_config a = Some config
         /\ render a = [LiveSessionScreen config]).
Proof.
  induction 1 as [|newConfig a _ _|a _ _].
  - left. repeat split.
  - right. exists newConfig. repeat split.
  - left. repeat split.
Qed.

(** X24.  Persona generation always yields an instruction to start the
    interview with: the text of the response when it is not empty, a fixed
    default when the response has no text, and, when the call fails, a
    fallback that names the interview template.  The result is never the
    empty string. *)
Theorem persona_is_never_empty
    (templateTitle userContext : JsString)
    (outcome : Completion GenerateContentResponse) :
  let persona := generateInterviewerPersona templateTitle userContext outcome in
  truthy persona = true
  /\ (forall response instruction,
         outcome = Normal response ->
         response_text response = Some instruction ->
         truthy instruction = true ->
         persona = instruction)
  /\ (outcome = Throw ->
      persona
      = persona_fallback_head ++ templateTitle ++ persona_fallback_tail).
Proof.
  cbv zeta. split; [|split].
  - unfold generateInterviewerPersona.
    destruct outcome as [response|]; [|reflexivity].
    destruct (response_text response) as [instruction|]; [|reflexivity].
    destruct (truthy instruction) eqn:E; [exact E|reflexivity].
  - intros response instruction Hout Htext Htruthy. subst outcome.
    unfold generateInterviewerPersona. now rewrite Htext, Htruthy.
  - intros Hout. now subst outcome.
Qed.

Lemma firstInlineImage_none (ps : list Part) :
  firstInlineImage ps = None <-> Forall (fun p => inlineData p = None) ps.
Proof.
  induction ps as [|part ps IH]; cbn.
  - split; [constructor|reflexivity].
  - destruct (inlineData part) as [blob|] eqn:E.
    + split; [discriminate|]. intros H. inversion H; congruence.
    + rewrite IH. split.
      * intros H. now constructor.
      * intros H. now inversion H.
Qed.

Lemma firstInlineImage_some (ps : list Part) (url : JsString) :
  firstInlineImage ps = Some url ->
  exists before part blob after,
    ps = before ++ part :: after
    /\ Forall (fun p => inlineData p = None) before
    /\ inlineData part = Some blob
    /\ url = dataUrlPrefix ++ interpolate (data blob).
Proof.
  induction ps as [|part ps IH]; cbn; [discriminate|].
  destruct (inlineData part) as [blob|] eqn:E.
  - intros H. injection H as H. exists [], part, blob, ps.
    repeat split; auto.
  - intros H. destruct (IH H) as (before & p & b & after & Hps & Hb & Hp & Hu).
    exists (part :: before), p, b, after. rewrite Hps.
    repeat split; auto.
Qed.

(** X25.  Avatar generation returns the image of the first part of the
    first candidate that carries inline data, as a PNG data URL, skipping
    the parts before it.  It returns nothing exactly when the call fails or
    no part of the first candidate carries inline data (no candidate, no
    content and no parts count as no part). *)
Theorem avatar_is_the_first_inline_image
    (description : JsString) (outcome : Completion GenerateContentResponse) :
  (generateAvatarImage description outcome = None <->
   outcome = Throw
   \/ exists response,
        outcome = Normal response
        /\ Forall (fun p => inlineData p = None)
             (firstCandidateParts response))
  /\ (forall url,
         generateAvatarImage description outcome = Some url ->
         exists response before part blob after,
           outcome = Normal response
           /\ firstCandidateParts response = before ++ part :: after
           /\ Forall (fun p => inlineData p = None) before
           /\ inlineData part = Some blob
           /\ url = dataUrlPrefix ++ interpolate (data blob)).
Proof.
  unfold generateAvatarImage. destruct outcome as [response|].
  - split.
    + rewrite firstInlineImage_none. split.
      * intros H. right. now exists response.
      * intros [H|(r & Hr & H)]; [discriminate|]. now injection Hr as ->.
    + intros url H.
      destruct (firstInlineImage_some _ H)
        as (before & part & blob & after & H1 & H2 & H3 & H4).
      now exists response, before, part, blob, after.
  - split.
    + split; [now left|reflexivity].
    + discriminate.
Qed.

(* ================================================================== *)
(** * Worked instances of the further properties *)

Lemma connectedState_reachable :
  reachable referenceHost referenceConfig connectedState.
Proof. apply reach_open, reach_connect, reach_mount. Defined.

Lemma steeringState_reachable :
  reachable referenceHost referenceConfig steeringState.
Proof. apply reach_typing, connectedState_reachable. Defined.

Lemma playingState_reachable :
  reachable referenceHost referenceConfig playingState.
Proof.
  exact (reach_message firstSession (audioChunk sampleChunk)
           (reach_message firstSession (audioChunk sampleChunk)
              connectedState_reachable)).
Defined.

Lemma transcript_is_append_only_witness :
  evolves referenceHost referenceConfig connectedState
    (handleSteering referenceHost steeringState)
  /\ exists added,
       chatHistory (handleSteering referenceHost steeringState)
       = chatHistory connectedState ++ added.
Proof.
  assert (Hrun : evolves referenceHost referenceConfig connectedState
                   (handleSteering referenceHost steeringState)).
  { eapply evolves_then; [|apply do_steering].
    eapply evolves_then; [apply evolves_here|].
    exact (do_typing referenceHost referenceConfig (js "Ask about Java.")
             connectedState). }
  split; [exact Hrun|].
  exact (transcript_is_append_only Hrun).
Defined.

Lemma recorded_transcript_lags_by_directives_witness :
  reachable referenceHost referenceConfig
    (handleSteering referenceHost steeringState)
  /\ exists pending,
       chatHistory (handleSteering referenceHost steeringState)
       = chatHistoryRef (handleSteering referenceHost steeringState)
           ++ pending
       /\ Forall (fun m => role m = user
                           /\ exists input, text m = lit_directive ++ input)
            pending.
Proof.
  assert (Hreach : reachable referenceHost referenceConfig
                     (handleSteering referenceHost steeringState))
    by apply reach_steering, steeringState_reachable.
  split; [exact Hreach|].
  exact (recorded_transcript_lags_by_directives Hreach).
Defined.

Lemma retry_after_steering_omits_directive_witness :
  API_KEY referenceHost = true
  /\ truthy (trim (steeringInput steeringState)) = true
  /\ activeSessionRef steeringState = Some firstSession
  /\ exists before,
       trace (connectToGemini referenceHost referenceConfig true None
                (handleSteering referenceHost steeringState))
       = before
           ++ [live_connect (allocated steeringState)
                 (finalSystemInstruction referenceConfig true
                    (chatHistoryRef steeringState))].
Proof.
  assert (Htext : truthy (trim (steeringInput steeringState)) = true)
    by (vm_compute; reflexivity).
  refine (conj eq_refl (conj Htext (conj eq_refl _))).
  exact (proj2 (@retry_after_steering_omits_directive referenceHost
                  referenceConfig firstSession steeringState eq_refl Htext
                  eq_refl)).
Defined.

Lemma turnComplete_one_sided_witness :
  truthy (trim (currentInputTranscription candidateSpokeState)) = true
  /\ truthy (trim (currentOutputTranscription candidateSpokeState)) = false
  /\ (let s' :=
        snd (onmessage referenceHost firstSession turnCompleteEvent
               candidateSpokeState) in
      chatHistory s'
      = chatHistory candidateSpokeState
          ++ [mkChatMessage user
                (currentInputTranscription candidateSpokeState)
                (Date_now referenceHost (instant candidateSpokeState)) None]
      /\ currentInputTranscription s' = []
      /\ currentOutputTranscription s' = []).
Proof.
  assert (Hin : truthy (trim (currentInputTranscription candidateSpokeState))
                = true) by (vm_compute; reflexivity).
  refine (conj Hin (conj eq_refl _)).
  exact (proj1 (@turnComplete_one_sided referenceHost firstSession
                  turnCompleteEvent candidateSpokeState eq_refl eq_refl
                  eq_refl eq_refl) Hin eq_refl).
Defined.

Lemma turnComplete_keeps_blank_accumulators_witness :
  currentInputTranscription blankState = js " "
  /\ (let s' :=
        snd (onmessage referenceHost firstSession turnCompleteEvent
               blankState) in
      currentInputTranscription s' = currentInputTranscription blankState
      /\ currentOutputTranscription s'
         = currentOutputTranscription blankState
      /\ chatHistory s' = chatHistory blankState).
Proof.
  split; [reflexivity|].
  exact (@turnComplete_keeps_blank_accumulators referenceHost firstSession
           turnCompleteEvent blankState eq_refl eq_refl eq_refl eq_refl
           eq_refl eq_refl eq_refl).
Defined.

Lemma outbound_fragment_takes_precedence_witness :
  let message := mkMessage None (Some bothFragments) in
  let s' := snd (onmessage referenceHost firstSession message connectedState)
  in
  currentOutputTranscription s'
  = currentOutputTranscription connectedState ++ js "Tell me"
  /\ currentInputTranscription s' = currentInputTranscription connectedState
  /\ sessionStatus s' = speaking.
Proof.
  exact (@outbound_fragment_takes_precedence referenceHost firstSession
           (mkMessage None (Some bothFragments)) bothFragments
           (mkTranscription (js "Tell me")) (mkTranscription (js "I led"))
           connectedState eq_refl eq_refl eq_refl eq_refl eq_refl eq_refl
           eq_refl).
Defined.

Lemma fragments_flush_as_one_turn_witness :
  let fragments := [js "Tell "; js "me "; js "more."] in
  let s' := deliver referenceHost firstSession
              (map outputTranscriptEvent fragments ++ [turnCompleteEvent])
              connectedState in
  chatHistory s'
  = chatHistory connectedState
      ++ [mkChatMessage model (js "Tell me more.")
            (Date_now referenceHost (instant connectedState)) None]
  /\ currentInputTranscription s' = []
  /\ currentOutputTranscription s' = [].
Proof.
  exact (@fragments_flush_as_one_turn referenceHost firstSession
           [js "Tell "; js "me "; js "more."] connectedState eq_refl
           eq_refl).
Defined.

Lemma sources_start_at_nonnegative_times_witness :
  reachable referenceHost referenceConfig playingState
  /\ length (startTimes (trace playingState)) = 2%nat
  /\ Forall (fun when => 0 <= when) (startTimes (trace playingState)).
Proof.
  split; [exact playingState_reachable|]. split; [reflexivity|].
  exact (proj2 (sources_start_at_nonnegative_times playingState_reachable)).
Defined.

Lemma sources_are_stopped_after_they_start_witness :
  let s := snd (onmessage referenceHost firstSession interruptedEvent
                  playingState) in
  reachable referenceHost referenceConfig s
  /\ length (stopped (trace s)) = 2%nat
  /\ stopsFollowStarts [] (trace s).
Proof.
  cbv zeta.
  assert (Hreach : reachable referenceHost referenceConfig
                     (snd (onmessage referenceHost firstSession
                             interruptedEvent playingState)))
    by apply reach_message, playingState_reachable.
  split; [exact Hreach|]. split; [vm_compute; reflexivity|].
  exact (proj1 (sources_are_stopped_after_they_start Hreach)).
Defined.

Lemma chunk_plays_then_ends_witness :
  let source := mkSource (allocated connectedState) sampleBuffer in
  let playing :=
    snd (onmessage referenceHost firstSession (audioChunk sampleChunk)
           connectedState) in
  sourcesRef playing = sourcesRef connectedState ++ [source]
  /\ sessionStatus playing = speaking
  /\ sourcesRef (onended source playing) = sourcesRef connectedState
  /\ sessionStatus (onended source playing) = listening.
Proof.
  assert (Hdecode : decode referenceHost sampleChunk = Some sampleBytes)
    by (vm_compute; reflexivity).
  exact (@chunk_plays_then_ends referenceHost referenceConfig firstSession
           connectedState sampleChunk (mkAudioContext 24000) sampleBytes
           sampleBuffer connectedState_reachable eq_refl eq_refl Hdecode
           eq_refl).
Defined.

Lemma playback_restarts_at_the_clock_after_interruption_witness :
  1 # 6000 < nextStartTimeRef playingState
  /\ (let s' := deliver referenceHost firstSession
                  [interruptedEvent; audioChunk sampleChunk] playingState in
      exists when,
        startTimes (trace s') = startTimes (trace playingState) ++ [when]
        /\ when == currentTime referenceHost (instant playingState)
        /\ nextStartTimeRef s'
           == currentTime referenceHost (instant playingState)
              + duration sampleBuffer).
Proof.
  split; [vm_compute; reflexivity|].
  assert (Hdecode : decode referenceHost sampleChunk = Some sampleBytes)
    by (vm_compute; reflexivity).
  assert (Hclock : 0 <= currentTime referenceHost (instant playingState))
    by (vm_compute; discriminate).
  exact (@playback_restarts_at_the_clock_after_interruption referenceHost
           firstSession playingState sampleChunk (mkAudioContext 24000)
           sampleBytes sampleBuffer eq_refl eq_refl Hdecode eq_refl Hclock).
Defined.

Lemma exception_in_audio_part_skips_interruption_witness :
  let message := mkMessage None (Some brokenInterruption) in
  let result := onmessage referenceHost firstSession message playingState in
  interrupted brokenInterruption = true
  /\ fst result = Threw
  /\ trace (snd result) = trace playingState
  /\ sourcesRef (snd result) = sourcesRef playingState
  /\ nextStartTimeRef (snd result) = nextStartTimeRef playingState.
Proof.
  split; [reflexivity|].
  exact (proj1 (@exception_in_audio_part_skips_interruption referenceHost
                  firstSession (mkMessage None (Some brokenInterruption))
                  brokenInterruption partlessTurn playingState eq_refl
                  eq_refl eq_refl eq_refl) eq_refl).
Defined.

Lemma muted_frames_are_dropped_witness :
  isMicOnRef mutedState = false
  /\ captureFrames referenceHost firstSession listening
       [sampleSamples; sampleSamples; sampleSamples] mutedState
     = mutedState.
Proof.
  split; [reflexivity|].
  exact (@muted_frames_are_dropped referenceHost firstSession listening
           [sampleSamples; sampleSamples; sampleSamples] mutedState eq_refl).
Defined.

Lemma toggleMic_twice_restores_witness :
  reachable referenceHost referenceConfig playingState
  /\ toggleMic (toggleMic playingState) = playingState.
Proof.
  split; [exact playingState_reachable|].
  exact (toggleMic_twice_restores playingState_reachable).
Defined.

Lemma audioVolume_is_a_percentage_witness :
  isMicOnRef connectedState = true
  /\ sampleSamples <> []
  /\ (let s' := onaudioprocess referenceHost firstSession listening
                  sampleSamples connectedState in
      0 <= audioVolume s' /\ audioVolume s' <= 100).
Proof.
  assert (Hframe : sampleSamples <> []) by discriminate.
  refine (conj eq_refl (conj Hframe _)).
  exact (@audioVolume_is_a_percentage referenceHost firstSession listening
           sampleSamples connectedState eq_refl Hframe).
Defined.


Lemma connectToGemini_replaces_the_session_witness :
  API_KEY referenceHost = true
  /\ activeSessionRef
       (connectToGemini referenceHost referenceConfig true None connectedState)
     = Some (allocated connectedState).
Proof.
  split; [reflexivity|].
  exact (proj1 (proj2 (@connectToGemini_replaces_the_session referenceHost
                         referenceConfig true connectedState eq_refl))).
Defined.

Lemma mood_display_falls_back_to_neutral_witness :
  ~ In (js "Neutral") recognisedMoods
  /\ getMoodEmoji (js "Neutral") = emoji_neutral
  /\ In (js "Strict") recognisedMoods
  /\ getMoodEmoji (js "Strict") <> emoji_neutral.
Proof.
  assert (Hnot : ~ In (js "Neutral") recognisedMoods).
  { cbn. intros H. repeat destruct H as [H|H]; try discriminate; exact H. }
  assert (Hin : In (js "Strict") recognisedMoods) by (cbn; tauto).
  refine (conj Hnot (conj _ (conj Hin _))).
  - exact (proj1 (proj1 (mood_display_falls_back_to_neutral (js "Neutral"))
                    Hnot)).
  - exact (proj1 (proj2 (mood_display_falls_back_to_neutral (js "Strict"))
                    Hin)).
Defined.

Lemma app_shows_exactly_one_screen_witness :
  app_reachable (handleStartInterview referenceConfig initialApp)
  /\ render (handleStartInterview referenceConfig initialApp)
     = [LiveSessionScreen referenceConfig].
Proof.
  assert (Hreach : app_reachable
                     (handleStartInterview referenceConfig initialApp))
    by apply app_start, app_mount.
  split; [exact Hreach|].
  destruct (app_shows_exactly_one_screen Hreach)
    as [(Hstate & _)|(config & _ & Hconfig & Hrender)].
  - discriminate Hstate.
  - exact (eq_trans Hrender
             (f_equal (fun c => [LiveSessionScreen c])
                (eq_sym (f_equal (fun o => match o with
                                           | Some c => c
                                           | None => config
                                           end) Hconfig)))).
Defined.

Lemma persona_is_never_empty_witness :
  let response := mkResponse (Some (js "Be strict but fair.")) None in
  generateInterviewerPersona (js "Campus") (js "Java") (Normal response)
  = js "Be strict but fair."
  /\ generateInterviewerPersona (js "Campus") (js "Java") Throw
     = persona_fallback_head ++ js "Campus" ++ persona_fallback_tail.
Proof.
  cbv zeta. split.
  - exact (proj1 (proj2 (persona_is_never_empty (js "Campus") (js "Java")
                           (Normal (mkResponse
                                      (Some (js "Be strict but fair."))
                                      None))))
             _ _ eq_refl eq_refl eq_refl).
  - exact (proj2 (proj2 (persona_is_never_empty (js "Campus") (js "Java")
                           Throw)) eq_refl).
Defined.

Lemma avatar_is_the_first_inline_image_witness :
  generateAvatarImage (js "a calm interviewer") (Normal imageResponse)
  = Some (js "data:image/png;base64,iVBORw0KGgo=")
  /\ exists response before part blob after,
       Normal imageResponse = Normal response
       /\ firstCandidateParts response = before ++ part :: after
       /\ Forall (fun p => inlineData p = None) before
       /\ inlineData part = Some blob
       /\ js "data:image/png;base64,iVBORw0KGgo="
          = dataUrlPrefix ++ interpolate (data blob).
Proof.
  assert (Hurl : generateAvatarImage (js "a calm interviewer")
                   (Normal imageResponse)
                 = Some (js "data:image/png;base64,iVBORw0KGgo="))
    by reflexivity.
  split; [exact Hurl|].
  exact (proj2 (avatar_is_the_first_inline_image (js "a calm interviewer")
                  (Normal imageResponse)) _ Hurl).
Defined.
